(** * Token-bucket rate limiter of kiwi-soluna

    A shallow embedding of the [RateLimiter] class (the token-bucket
    admission controller of the worker) and the properties of it that the
    specification states.

    Modelling choices.
    - A TypeScript [number] is an exact rational ([Q]).  This is exact for
      the integer timestamps and token counts the limiter handles and as
      long as no division by zero occurs: JavaScript yields [Infinity] or
      [NaN] for [x / 0], [Qdiv] yields [0].  Theorems whose truth depends
      on the value of a quotient therefore assume a nonzero divisor.
      Rounding, overflow and negative zero of IEEE doubles are not modelled.
    - [Math.floor], [Math.ceil] and [Math.min] are [Qfloor], [Qceiling] and
      [Qmin], re-injected into [Q] since they return a [number].
    - The [Map<string, TokenBucket>] is a [gmap string TokenBucket].  The
      source mutates the bucket object held by the map in place; a bucket
      is reachable only through its key, so the mutation is an [insert].
    - [Date.now()] is a parameter [now] of every method that reads the clock.
    - [setInterval]/[clearInterval] act on an explicit table of active
      interval timers ([Timers]); timer handles are positive integers, hence
      truthy, as the HTML timer specification requires. *)

From Stdlib Require Import QArith Qround Qminmax ZArith Lia Lqa.
From stdpp Require Import gmap strings list fin_maps.
From Stdlib Require Import Ascii.
From stdpp Require Import pretty.

Local Open Scope Q_scope.

(** ** JavaScript number primitives *)

Definition Math_floor (x : Q) : Q := inject_Z (Qfloor x).
Definition Math_ceil (x : Q) : Q := inject_Z (Qceiling x).
Definition Math_min (x y : Q) : Q := Qmin x y.

(** [x >= y] and [x > y] on numbers. *)
Definition js_ge (x y : Q) : bool := Qle_bool y x.
Definition js_gt (x y : Q) : bool := negb (Qle_bool x y).

(** [Number.isInteger]. *)
Definition isInteger (x : Q) : bool := Qeq_bool (Math_floor x) x.

(** ** Data model *)

Record RateLimitConfig := {
  tokensPerInterval : Q;
  interval : Q;
  bucketSize : Q
}.

Record TokenBucket := {
  tokens : Q;
  lastRefill : Q
}.

Record RateLimiter := {
  buckets : gmap string TokenBucket;
  config : RateLimitConfig;
  cleanupIntervalId : option positive
}.

Definition constructor (cfg : RateLimitConfig) : RateLimiter :=
  {| buckets := ∅; config := cfg; cleanupIntervalId := None |}.

Definition set_buckets (m : gmap string TokenBucket) (rl : RateLimiter) : RateLimiter :=
  {| buckets := m; config := config rl; cleanupIntervalId := cleanupIntervalId rl |}.

Definition set_cleanupIntervalId (i : option positive) (rl : RateLimiter) : RateLimiter :=
  {| buckets := buckets rl; config := config rl; cleanupIntervalId := i |}.

(** The default instance: 30 requests per minute, burst capacity of 10. *)
Definition defaultConfig : RateLimitConfig :=
  {| tokensPerInterval := 1; interval := 2000; bucketSize := 10 |}.

Definition rateLimiter : RateLimiter := constructor defaultConfig.

(** ** Admission decision *)

(** The refill of an existing bucket: the value assigned to [bucket.tokens]
    before the availability check. *)
Definition refill (cfg : RateLimitConfig) (now : Q) (bucket : TokenBucket) : Q :=
  let elapsed := now - lastRefill bucket in
  let tokensToAdd := Math_floor (elapsed / interval cfg) * tokensPerInterval cfg in
  Math_min (bucketSize cfg) (tokens bucket + tokensToAdd).

Definition isAllowed (now : Q) (identifier : string) (rl : RateLimiter)
  : bool * RateLimiter :=
  match buckets rl !! identifier with
  | None =>
      let bucket := {| tokens := bucketSize (config rl) - 1; lastRefill := now |} in
      (true, set_buckets (<[identifier := bucket]> (buckets rl)) rl)
  | Some bucket =>
      let bucket1 := {| tokens := refill (config rl) now bucket; lastRefill := now |} in
      if js_ge (tokens bucket1) 1 then
        let bucket2 := {| tokens := tokens bucket1 - 1; lastRefill := lastRefill bucket1 |} in
        (true, set_buckets (<[identifier := bucket2]> (buckets rl)) rl)
      else
        (false, set_buckets (<[identifier := bucket1]> (buckets rl)) rl)
  end.

Definition getRemainingTokens (identifier : string) (rl : RateLimiter) : Q :=
  match buckets rl !! identifier with
  | None => bucketSize (config rl)
  | Some bucket => Math_floor (tokens bucket)
  end.

Definition getResetTimeSeconds (identifier : string) (rl : RateLimiter) : Q :=
  match buckets rl !! identifier with
  | None => 0
  | Some bucket =>
      if js_ge (tokens bucket) 1 then 0
      else
        let tokensNeeded := 1 - tokens bucket in
        let msUntilToken :=
          Math_ceil ((tokensNeeded / tokensPerInterval (config rl)) * interval (config rl)) in
        Math_ceil (msUntilToken / 1000)
  end.

(** ** Cleanup sweep *)

Definition staleThreshold : Q := 5 * 60 * 1000.

(** One iteration of the [for ... of this.buckets] loop. *)
Definition cleanup_step (now : Q) (m : gmap string TokenBucket)
  (entry : string * TokenBucket) : gmap string TokenBucket :=
  if js_gt (now - lastRefill (snd entry)) staleThreshold
  then delete (fst entry) m
  else m.

Definition cleanup (now : Q) (rl : RateLimiter) : RateLimiter :=
  set_buckets (foldl (cleanup_step now) (buckets rl) (map_to_list (buckets rl))) rl.

(** ** Interval timers of the host and the sweep lifecycle *)

Record Timers := {
  active : gmap positive Q;   (* handle of an active interval timer, and its period *)
  nextHandle : positive
}.

Definition noTimers : Timers := {| active := ∅; nextHandle := 1%positive |}.

Definition setInterval (period : Q) (t : Timers) : positive * Timers :=
  (nextHandle t,
   {| active := <[nextHandle t := period]> (active t);
      nextHandle := (nextHandle t + 1)%positive |}).

Definition clearInterval (h : positive) (t : Timers) : Timers :=
  {| active := delete h (active t); nextHandle := nextHandle t |}.

(** [intervalMs] is an optional argument with default [60000]. *)
Definition startCleanup (intervalMs : option Q) (w : RateLimiter * Timers)
  : RateLimiter * Timers :=
  match cleanupIntervalId (fst w) with
  | Some _ => w
  | None =>
      let (h, t) := setInterval (default 60000 intervalMs) (snd w) in
      (set_cleanupIntervalId (Some h) (fst w), t)
  end.

Definition stopCleanup (w : RateLimiter * Timers) : RateLimiter * Timers :=
  match cleanupIntervalId (fst w) with
  | Some h => (set_cleanupIntervalId None (fst w), clearInterval h (snd w))
  | None => w
  end.

(** ** Calls on a limiter and their traces *)

Inductive Call :=
| IsAllowed (identifier : string)
| GetRemainingTokens (identifier : string)
| GetResetTimeSeconds (identifier : string)
| Sweep                                   (* the timer callback: [this.cleanup()] *)
| StartCleanup (intervalMs : option Q)
| StopCleanup.

Inductive Value :=
| VBool (b : bool)
| VNumber (x : Q)
| VVoid.

(** [exec now c w]: the call [c] made while the clock reads [now]. *)
Definition exec (now : Q) (c : Call) (w : RateLimiter * Timers)
  : Value * (RateLimiter * Timers) :=
  match c with
  | IsAllowed identifier =>
      let r := isAllowed now identifier (fst w) in (VBool (fst r), (snd r, snd w))
  | GetRemainingTokens identifier => (VNumber (getRemainingTokens identifier (fst w)), w)
  | GetResetTimeSeconds identifier => (VNumber (getResetTimeSeconds identifier (fst w)), w)
  | Sweep => (VVoid, (cleanup now (fst w), snd w))
  | StartCleanup intervalMs => (VVoid, startCleanup intervalMs w)
  | StopCleanup => (VVoid, stopCleanup w)
  end.

Fixpoint run (evs : list (Q * Call)) (w : RateLimiter * Timers)
  : list Value * (RateLimiter * Timers) :=
  match evs with
  | [] => ([], w)
  | (now, c) :: evs' =>
      let r := exec now c w in
      let rs := run evs' (snd r) in
      (fst r :: fst rs, snd rs)
  end.

(** The clock never goes back: every call reads a time no earlier than [t]
    and than the calls before it. *)
Fixpoint clock_from (t : Q) (evs : list (Q * Call)) : Prop :=
  match evs with
  | [] => True
  | (now, _) :: evs' => t <= now /\ clock_from now evs'
  end.

(** [k] calls of [isAllowed] for one identifier with the clock standing at [now]. *)
Fixpoint burst (k : nat) (now : Q) (identifier : string) (rl : RateLimiter)
  : list bool * RateLimiter :=
  match k with
  | O => ([], rl)
  | S k' =>
      let r := isAllowed now identifier rl in
      let rs := burst k' now identifier (snd r) in
      (fst r :: fst rs, snd rs)
  end.

(** ** Properties of limiter states *)

(** The two states of the sweep. *)
Inductive SweepState := Stopped | Running.

Definition sweepState (rl : RateLimiter) : SweepState :=
  match cleanupIntervalId rl with
  | None => Stopped
  | Some _ => Running
  end.

(** The handle the limiter holds is the one active timer, and there is no
    active timer when it holds none. *)
Definition sweep_coherent (w : RateLimiter * Timers) : Prop :=
  match cleanupIntervalId (fst w) with
  | None => active (snd w) = ∅
  | Some h => exists period, active (snd w) = {[ h := period ]}
  end.

(** A freshly constructed limiter in a host without timers. *)
Definition initial (cfg : RateLimitConfig) : RateLimiter * Timers :=
  (constructor cfg, noTimers).

(** A limiter that admits nothing after the creating request. *)
Definition zeroCapacity : RateLimitConfig :=
  {| tokensPerInterval := 1; interval := 2000; bucketSize := 0 |}.

(** Burst exhaustion for capacity [n]: [n] immediate calls are all admitted,
    the first leaves [n - 1] tokens (also as read by [getRemainingTokens]),
    and call [n + 1] is denied. *)
Definition burst_exhausts (n : nat) (now : Q) (identifier : string) (rl : RateLimiter)
  : Prop :=
  fst (burst n now identifier rl) = repeat true n
  /\ (exists bucket,
        buckets (snd (isAllowed now identifier rl)) !! identifier = Some bucket
        /\ tokens bucket == inject_Z (Z.of_nat n) - 1)
  /\ getRemainingTokens identifier (snd (isAllowed now identifier rl))
     == inject_Z (Z.of_nat n) - 1
  /\ fst (isAllowed now identifier (snd (burst n now identifier rl))) = false.

(** Every stored token count lies between 0 and the capacity. *)
Definition tokens_bounded (rl : RateLimiter) : Prop :=
  forall identifier bucket,
    buckets rl !! identifier = Some bucket ->
    0 <= tokens bucket /\ tokens bucket <= bucketSize (config rl).

(** [tokens_bounded], and no bucket was refilled after time [t]. *)
Definition bounded_at (t : Q) (rl : RateLimiter) : Prop :=
  forall identifier bucket,
    buckets rl !! identifier = Some bucket ->
    0 <= tokens bucket /\ tokens bucket <= bucketSize (config rl)
    /\ lastRefill bucket <= t.

(** The time of the last call of a trace that starts at time [t]. *)
Fixpoint clock_after (t : Q) (evs : list (Q * Call)) : Q :=
  match evs with
  | [] => t
  | (now, _) :: evs' => clock_after now evs'
  end.

(** The argument of the inner [Math.ceil] of [getResetTimeSeconds]. *)
Definition msUntilToken_exact (cfg : RateLimitConfig) (bucket : TokenBucket) : Q :=
  (1 - tokens bucket) / tokensPerInterval cfg * interval cfg.



(** ** Observers of whole traces *)







(** * The rest of the worker

    Strings are the UTF-8 bytes of the JavaScript string.  The host functions
    used below are modelled as follows: [Headers.get] is a function from the
    header name to the value or [null]; [String.prototype.split] with a
    one-character separator is [split]; [String.prototype.trim] is [trim],
    which strips the ECMAScript white space and line terminator characters
    in their UTF-8 encoding; [String(n)] on an integer is its decimal
    numeral. *)

(** ** Strings *)

Definition ascii_eqb (a b : ascii) : bool := (N_of_ascii a =? N_of_ascii b)%N.

(** [s.split(sep)] for a one-character separator. *)
Fixpoint split (sep : ascii) (s : string) : list string :=
  match s with
  | EmptyString => [EmptyString]
  | String c r =>
      if ascii_eqb c sep then EmptyString :: split sep r
      else match split sep r with
           | piece :: pieces => String c piece :: pieces
           | [] => [String c EmptyString]
           end
  end.

Fixpoint has_char (c : ascii) (s : string) : bool :=
  match s with
  | EmptyString => false
  | String c' r => ascii_eqb c' c || has_char c r
  end.

(** White space of one byte: U+0009 to U+000D and U+0020. *)
Definition ws1 (c : ascii) : bool :=
  let n := N_of_ascii c in ((9 <=? n) && (n <=? 13) || (n =? 32))%N.

(** White space of two bytes: U+00A0 (C2 A0). *)
Definition ws2 (c1 c2 : ascii) : bool :=
  ((N_of_ascii c1 =? 194) && (N_of_ascii c2 =? 160))%N.

(** White space of three bytes: U+1680 (E1 9A 80), U+2000 to U+200A
    (E2 80 80 to E2 80 8A), U+2028, U+2029 and U+202F (E2 80 A8, A9, AF),
    U+205F (E2 81 9F), U+3000 (E3 80 80), U+FEFF (EF BB BF). *)
Definition ws3 (c1 c2 c3 : ascii) : bool :=
  let a := N_of_ascii c1 in
  let b := N_of_ascii c2 in
  let c := N_of_ascii c3 in
  ((a =? 225) && (b =? 154) && (c =? 128)
   || (a =? 226) && (b =? 128)
      && ((128 <=? c) && (c <=? 138) || (c =? 168) || (c =? 169) || (c =? 175))
   || (a =? 226) && (b =? 129) && (c =? 159)
   || (a =? 227) && (b =? 128) && (c =? 128)
   || (a =? 239) && (b =? 187) && (c =? 191))%N.

(** Drop the characters at the front that [p1], [p2], [p3] recognise. *)
Fixpoint strip (p1 : ascii -> bool) (p2 : ascii -> ascii -> bool)
  (p3 : ascii -> ascii -> ascii -> bool) (s : string) : string :=
  match s with
  | EmptyString => s
  | String c1 r1 =>
      if p1 c1 then strip p1 p2 p3 r1
      else match r1 with
           | EmptyString => s
           | String c2 r2 =>
               if p2 c1 c2 then strip p1 p2 p3 r2
               else match r2 with
                    | EmptyString => s
                    | String c3 r3 =>
                        if p3 c1 c2 c3 then strip p1 p2 p3 r3 else s
                    end
           end
  end.

Definition trimStart (s : string) : string := strip ws1 ws2 ws3 s.

(** The same from the end, on the reversed string. *)
Definition trimEnd (s : string) : string :=
  String.rev (strip ws1 (fun c2 c1 => ws2 c1 c2) (fun c3 c2 c1 => ws3 c1 c2 c3)
                    (String.rev s)).

Definition trim (s : string) : string := trimEnd (trimStart s).

(** ** Client identification *)

Record Request := {
  headers_get : string -> option string   (* [request.headers.get(name)] *)
}.

(** Truthiness of a [string | null]: neither [null] nor empty. *)
Definition truthy (v : option string) : bool :=
  match v with
  | Some (String _ _) => true
  | _ => false
  end.

Definition getClientIP (request : Request) : string :=
  let cfIP := headers_get request "CF-Connecting-IP" in
  if truthy cfIP then default "" cfIP
  else
    let xRealIP := headers_get request "X-Real-IP" in
    if truthy xRealIP then default "" xRealIP
    else
      let xForwardedFor := headers_get request "X-Forwarded-For" in
      if truthy xForwardedFor
      then trim (hd "" (split "," (default "" xForwardedFor)))
      else "unknown".

(** ** The provider: moon phase and day length *)

Record MoonData := {
  phase : string;
  hijriDay : Q
}.

Definition js_le (x y : Q) : bool := Qle_bool x y.

Definition calculateMoonPhase (day : Q) : MoonData :=
  {| phase :=
       if js_le day 4 then "New Moon"
       else if js_le day 11 then "First Quarter"
       else if js_le day 18 then "Full Moon"
       else if js_le day 25 then "Last Quarter"
       else "New Moon";
     hijriDay := day |}.


(** ** The request date *)

(** The local-time fields of a [Date]. *)
Record Date := {
  getDate : Z;       (* day of the month, 1 to 31 *)
  getMonth : Z;      (* month, 0 to 11 *)
  getFullYear : Z
}.

(** [String(n)] for an integer [n]. *)
Definition Number_toString (n : Z) : string := pretty n.

(** [s.padStart(targetLength, "0")]. *)
Definition padStart0 (targetLength : nat) (s : string) : string :=
  Nat.iter (targetLength - String.length s) (String "0") s.

Definition getTodayDate (now : Date) : string :=
  let day := padStart0 2 (Number_toString (getDate now)) in
  let month := padStart0 2 (Number_toString (getMonth now + 1)) in
  let year := getFullYear now in
  day +:+ "-" +:+ month +:+ "-" +:+ Number_toString year.

(** [\d]. *)
Definition isDigit (c : ascii) : bool :=
  let n := N_of_ascii c in ((48 <=? n) && (n <=? 57))%N.

(** [pathname.match(/^\/api\/(\d{2}-\d{2}-\d{4})$/)]: the captured date, or
    [null]. *)
Definition apiMatch (pathname : string) : option string :=
  match pathname with
  | String "/" (String "a" (String "p" (String "i" (String "/"
      (String d1 (String d2 (String "-" (String m1 (String m2 (String "-"
        (String y1 (String y2 (String y3 (String y4 EmptyString)))))))))))))) =>
      if isDigit d1 && isDigit d2 && isDigit m1 && isDigit m2
         && isDigit y1 && isDigit y2 && isDigit y3 && isDigit y4
      then Some (String d1 (String d2 (String "-" (String m1 (String m2 (String "-"
                  (String y1 (String y2 (String y3 (String y4 EmptyString))))))))))
      else None
  | _ => None
  end.

(** Strings of exactly [n] decimal digits. *)
Fixpoint all_digits (s : string) : bool :=
  match s with
  | EmptyString => true
  | String c r => isDigit c && all_digits r
  end.

Definition digits (n : nat) (s : string) : bool :=
  (String.length s =? n)%nat && all_digits s.

(** The [date] that [main] passes on: the one in the path, else today's. *)
Definition requestDate (pathname : string) (now : Date) : string :=
  match apiMatch pathname with
  | Some date => date
  | None => getTodayDate now
  end.

(** ** Calculation methods *)

(** The object [CALCULATION_METHODS], as its entries in key order. *)
Definition CALCULATION_METHODS : list (Z * string) :=
  [ (0, "Jafari / Shia Ithna-Ashari");
    (1, "University of Islamic Sciences, Karachi");
    (2, "Islamic Society of North America");
    (3, "Muslim World League");
    (4, "Umm Al-Qura University, Makkah");
    (5, "Egyptian General Authority of Survey");
    (7, "Institute of Geophysics, University of Tehran");
    (8, "Gulf Region");
    (9, "Kuwait");
    (10, "Qatar");
    (11, "Majlis Ugama Islam Singapura, Singapore");
    (12, "Union Organization islamic de France");
    (13, "Diyanet İşleri Başkanlığı, Turkey");
    (14, "Spiritual Administration of Muslims of Russia");
    (15, "Moonsighting Committee Worldwide");
    (16, "Dubai (experimental)");
    (17, "Jabatan Kemajuan Islam Malaysia (JAKIM)");
    (18, "Tunisia");
    (19, "Algeria");
    (20, "KEMENAG - Kementerian Agama Republik Indonesia");
    (21, "Morocco");
    (22, "Comunidade Islamica de Lisboa");
    (23, "Ministry of Awqaf, Islamic Affairs and Holy Places, Jordan") ]%Z.

(** [method in CALCULATION_METHODS], where [method] is the result of
    [parseInt]: an integer, or [NaN] ([None]), which is no key. *)
Definition method_in_CALCULATION_METHODS (method : option Z) : bool :=
  match method with
  | Some z => existsb (fun entry => Z.eqb (fst entry) z) CALCULATION_METHODS
  | None => false
  end.

Module Method.
Record t := { id : Z; name : string }.
End Method.

Definition getMethods : list Method.t :=
  [ {| Method.id := 0; Method.name := "Jafari / Shia Ithna-Ashari" |};
    {| Method.id := 1; Method.name := "University of Islamic Sciences, Karachi" |};
    {| Method.id := 2; Method.name := "Islamic Society of North America" |};
    {| Method.id := 3; Method.name := "Muslim World League" |};
    {| Method.id := 4; Method.name := "Umm Al-Qura University, Makkah" |};
    {| Method.id := 5; Method.name := "Egyptian General Authority of Survey" |};
    {| Method.id := 7; Method.name := "Institute of Geophysics, University of Tehran" |};
    {| Method.id := 8; Method.name := "Gulf Region" |};
    {| Method.id := 9; Method.name := "Kuwait" |};
    {| Method.id := 10; Method.name := "Qatar" |};
    {| Method.id := 11; Method.name := "Majlis Ugama Islam Singapura, Singapore" |};
    {| Method.id := 12; Method.name := "Union Organization islamic de France" |};
    {| Method.id := 13; Method.name := "Diyanet İşleri Başkanlığı, Turkey" |};
    {| Method.id := 14; Method.name := "Spiritual Administration of Muslims of Russia" |};
    {| Method.id := 15; Method.name := "Moonsighting Committee Worldwide" |};
    {| Method.id := 16; Method.name := "Dubai (experimental)" |};
    {| Method.id := 17; Method.name := "Jabatan Kemajuan Islam Malaysia (JAKIM)" |};
    {| Method.id := 18; Method.name := "Tunisia" |};
    {| Method.id := 19; Method.name := "Algeria" |};
    {| Method.id := 20; Method.name := "KEMENAG - Kementerian Agama Republik Indonesia" |};
    {| Method.id := 21; Method.name := "Morocco" |};
    {| Method.id := 22; Method.name := "Comunidade Islamica de Lisboa" |};
    {| Method.id := 23;
       Method.name := "Ministry of Awqaf, Islamic Affairs and Holy Places, Jordan" |} ]%Z.

(** ** The provider: fetching with fallback

    [fetch], [response.json()] and [encodeURIComponent] are parameters: the
    network decides what a URL answers.  A thrown [Error] is its message.
    The function returns what the source returns or throws, together with
    the URLs it fetched, in order. *)

Definition BASE_URLS : list string :=
  [ "https://api.aladhan.com/v1/timingsByAddress";
    "https://aladhan.api.islamic.network/v1/timingsByAddress";
    "https://aladhan.api.alislam.ru/v1/timingsByAddress" ].

Record QueryParams := {
  address : string;
  method : option Z;
  date : string
}.

Record ApiResponse (Data : Type) := {
  code : Z;
  status : string;
  data : Data
}.
Arguments code {Data}.
Arguments status {Data}.
Arguments data {Data}.

(** A [Response]: [ok], [status], [statusText], and what [json()] resolves
    to or rejects with. *)
Record Response (Data : Type) := {
  response_ok : bool;
  response_status : Z;
  response_statusText : string;
  response_json : string + ApiResponse Data
}.
Arguments response_ok {Data}.
Arguments response_status {Data}.
Arguments response_statusText {Data}.
Arguments response_json {Data}.

Section Provider.
Context {Data Soluna : Type}.
Variable encodeURIComponent : string -> string.
Variable fetch : string -> string + Response Data.
(* the object literal built from [json.data]; reading it may throw *)
Variable build : Data -> string + Soluna.
Variable params : QueryParams.

Definition requestUrl (baseUrl : string) : string :=
  baseUrl +:+ "/" +:+ date params +:+ "?address=" +:+ encodeURIComponent (address params)
  +:+ "&method=" +:+ Number_toString (default 1%Z (method params)).

(** The body of the [try] for one base URL: the value returned, or the
    error caught. *)
Definition attempt (baseUrl : string) : string + Soluna :=
  match fetch (requestUrl baseUrl) with
  | inl err => inl err
  | inr response =>
      if negb (response_ok response)
      then inl ("AlAdhan API error: " +:+ Number_toString (response_status response)
                +:+ " " +:+ response_statusText response)
      else match response_json response with
           | inl err => inl err
           | inr json =>
               if negb (code json =? 200)%Z
               then inl ("AlAdhan API returned error: " +:+ status json)
               else build (data json)
           end
  end.

Fixpoint getSolunaData_from (urls : list string) (lastError : option string)
  : (string + Soluna) * list string :=
  match urls with
  | [] => (inl (default "All AlAdhan API endpoints failed" lastError), [])
  | baseUrl :: urls' =>
      match attempt baseUrl with
      | inr result => (inr result, [requestUrl baseUrl])
      | inl err =>
          let r := getSolunaData_from urls' (Some err) in
          (fst r, requestUrl baseUrl :: snd r)
      end
  end.

Definition getSolunaData : (string + Soluna) * list string :=
  getSolunaData_from BASE_URLS None.

(** The attempt for a base URL throws. *)
Definition fails (baseUrl : string) : Prop := exists err, attempt baseUrl = inl err.

End Provider.

(** ** The request handler

    [main] up to the serialisation of the bodies: a body is the value passed
    to [JSON.stringify] (or the HTML text).  The parsed URL is given by its
    [pathname] and [searchParams.get]; the page text is a parameter.
    [parseInt] yields the exact integer (the source rounds it to a double,
    which differs only beyond 2^53) or [NaN] ([None]). *)

Record Url := {
  pathname : string;
  searchParams_get : string -> option string
}.

Fixpoint parse_digits (acc : Z) (s : string) : Z :=
  match s with
  | EmptyString => acc
  | String c r =>
      if isDigit c then parse_digits (acc * 10 + (Z.of_N (N_of_ascii c) - 48)) r else acc
  end.

(** [parseInt(s, 10)]. *)
Definition parseInt10 (s : string) : option Z :=
  let S := trimStart s in
  let signed :=
    match S with
    | String "-" r => ((-1)%Z, r)
    | String "+" r => (1%Z, r)
    | _ => (1%Z, S)
    end in
  match snd signed with
  | String c _ =>
      if isDigit c then Some (fst signed * parse_digits 0 (snd signed))%Z else None
  | EmptyString => None
  end.

(** Strings of one-byte white space only. *)
Fixpoint all_ws1 (s : string) : bool :=
  match s with
  | EmptyString => true
  | String c r => ws1 c && all_ws1 r
  end.

(** The string is empty or starts with something other than a digit. *)
Definition no_leading_digit (s : string) : bool :=
  match s with
  | EmptyString => true
  | String c _ => negb (isDigit c)
  end.

Inductive Body (Soluna : Type) :=
| MethodsBody (methods : list Method.t)              (* { methods } *)
| HtmlBody (html : string)
| ErrorBody (status : Z) (error : string)            (* { status, error } *)
| InvalidMethodBody (status : Z) (method : option Z) (* error: `Invalid method: ...` *)
| SolunaBody (solunaData : Soluna).
Arguments MethodsBody {Soluna}.
Arguments HtmlBody {Soluna}.
Arguments ErrorBody {Soluna}.
Arguments InvalidMethodBody {Soluna}.
Arguments SolunaBody {Soluna}.

Record HttpResponse (Soluna : Type) := {
  http_body : Body Soluna;
  http_status : Z;
  http_headers : list (string * string)
}.
Arguments http_body {Soluna}.
Arguments http_status {Soluna}.
Arguments http_headers {Soluna}.

Definition createResponse {Soluna : Type} (body : Body Soluna) (status : Z)
  (contentType cacheControl : string) : HttpResponse Soluna :=
  {| http_body := body;
     http_status := status;
     http_headers := [ ("access-control-allow-methods", "GET");
                       ("access-control-allow-origin", "*");
                       ("content-type", contentType);
                       ("cache-control", cacheControl) ] |}.

Section Main.
Context {Data Soluna : Type}.
Variable encodeURIComponent : string -> string.
Variable fetch : string -> string + Response Data.
Variable build : Data -> string + Soluna.
Variable LANDING_PAGE_HTML : string.

(** The response, and the URLs fetched on the way. *)
Definition main (url : Url) (now : Date) : HttpResponse Soluna * list string :=
  let address := default "London" (searchParams_get url "address") in
  let methodParam := default "1" (searchParams_get url "method") in
  let showMethods := default "" (searchParams_get url "methods") in
  let contentType := "application/json" in
  let cacheControl := "no-cache" in
  if String.eqb showMethods "true"
  then (createResponse (MethodsBody getMethods) 200 contentType cacheControl, [])
  else if String.eqb (pathname url) "/" && String.eqb address ""
  then ({| http_body := HtmlBody LANDING_PAGE_HTML;
           http_status := 200;
           http_headers := [ ("content-type", "text/html"); ("cache-control", "no-cache") ] |},
        [])
  else
    let date := requestDate (pathname url) now in
    if String.eqb address ""
    then (createResponse (ErrorBody 400 "Missing required parameter: address") 400
                         contentType "no-cache", [])
    else
      let method := parseInt10 methodParam in
      if negb (method_in_CALCULATION_METHODS method)
      then (createResponse (InvalidMethodBody 400 method) 400 contentType "no-cache", [])
      else
        let params := {| address := address; method := method; date := date |} in
        let r := getSolunaData encodeURIComponent fetch build params in
        match fst r with
        | inr solunaData =>
            (createResponse (SolunaBody solunaData) 200 contentType cacheControl, snd r)
        | inl message =>
            (createResponse (ErrorBody 503 message) 503 contentType cacheControl, snd r)
        end.

End Main.

(** ** Examples *)

Example isAllowed_first :
  fst (isAllowed 1000 "1.2.3.4" rateLimiter) = true.
Proof. reflexivity. Qed.

Example remaining_after_first :
  getRemainingTokens "1.2.3.4" (snd (isAllowed 1000 "1.2.3.4" rateLimiter)) = 9.
Proof. vm_compute. reflexivity. Qed.

Example scenario_results :
  fst (burst 11 1000 "1.2.3.4" rateLimiter)
  = [true; true; true; true; true; true; true; true; true; true; false].
Proof. vm_compute. reflexivity. Qed.

Example scenario_reset :
  getResetTimeSeconds "1.2.3.4" (snd (burst 11 1000 "1.2.3.4" rateLimiter)) = 2.
Proof. vm_compute. reflexivity. Qed.

Example scenario_after_interval :
  fst (isAllowed 3000 "1.2.3.4" (snd (burst 11 1000 "1.2.3.4" rateLimiter))) = true.
Proof. vm_compute. reflexivity. Qed.

(** ** Number primitives: basic facts *)

Lemma js_ge_true x y : js_ge x y = true <-> y <= x.
Proof. unfold js_ge. apply Qle_bool_iff. Qed.

Lemma js_ge_false x y : js_ge x y = false <-> x < y.
Proof.
  unfold js_ge. split.
  - intros H. apply Qnot_le_lt. intros Hle. apply Qle_bool_iff in Hle. congruence.
  - intros H. destruct (Qle_bool y x) eqn:E; [|reflexivity].
    apply Qle_bool_iff in E. lra.
Qed.

Lemma js_gt_true x y : js_gt x y = true <-> y < x.
Proof.
  unfold js_gt. rewrite negb_true_iff. split.
  - intros H. apply Qnot_le_lt. intros Hle. apply Qle_bool_iff in Hle. congruence.
  - intros H. destruct (Qle_bool x y) eqn:E; [|reflexivity].
    apply Qle_bool_iff in E. lra.
Qed.

Lemma js_gt_false x y : js_gt x y = false <-> x <= y.
Proof. unfold js_gt. rewrite negb_false_iff. apply Qle_bool_iff. Qed.

(** A fresh limiter holds no bucket: goals about the buckets of [initial cfg]
    hold vacuously. *)
Ltac fresh_store :=
  let id := fresh "id" in
  let b := fresh "b" in
  let H := fresh "H" in
  intros id b H; cbn in H; rewrite lookup_empty in H; discriminate H.

(** ** C1: refill and consume on an existing bucket *)



(** ** Frame lemmas for [isAllowed] *)

Lemma isAllowed_config now identifier rl :
  config (snd (isAllowed now identifier rl)) = config rl.
Proof.
  unfold isAllowed. destruct (buckets rl !! identifier); [|reflexivity].
  cbn. destruct (js_ge _ _); reflexivity.
Qed.

Lemma isAllowed_cleanupIntervalId now identifier rl :
  cleanupIntervalId (snd (isAllowed now identifier rl)) = cleanupIntervalId rl.
Proof.
  unfold isAllowed. destruct (buckets rl !! identifier); [|reflexivity].
  cbn. destruct (js_ge _ _); reflexivity.
Qed.

Lemma isAllowed_lookup_ne now a b rl :
  a <> b -> buckets (snd (isAllowed now a rl)) !! b = buckets rl !! b.
Proof.
  intros Hne. unfold isAllowed. destruct (buckets rl !! a).
  - cbn. destruct (js_ge _ _); cbn; apply lookup_insert_ne; exact Hne.
  - cbn. apply lookup_insert_ne; exact Hne.
Qed.

(** The verdict for an identifier and its bucket afterwards are functions of
    the configuration and of that identifier's bucket alone. *)
Lemma isAllowed_local now identifier rl rl' :
  config rl = config rl' ->
  buckets rl !! identifier = buckets rl' !! identifier ->
  fst (isAllowed now identifier rl) = fst (isAllowed now identifier rl')
  /\ buckets (snd (isAllowed now identifier rl)) !! identifier
     = buckets (snd (isAllowed now identifier rl')) !! identifier.
Proof.
  intros Hc Hb. unfold isAllowed. rewrite <- Hb, <- Hc.
  destruct (buckets rl !! identifier).
  - cbn. destruct (js_ge _ _); cbn; rewrite !lookup_insert_eq; auto.
  - cbn. rewrite !lookup_insert_eq; auto.
Qed.

(** ** C4: [getRemainingTokens] is a pure read *)

(** C4. [getRemainingTokens] returns [bucketSize] when the identifier has no
    bucket and otherwise the floor of the stored [tokens]; the call performs
    no refill (its result does not depend on the clock) and leaves the
    limiter and the timers exactly as they were. *)
Theorem getRemainingTokens_pure_read
  (now : Q) (identifier : string) (w : RateLimiter * Timers) :
  fst (exec now (GetRemainingTokens identifier) w)
  = VNumber match buckets (fst w) !! identifier with
            | None => bucketSize (config (fst w))
            | Some bucket => inject_Z (Qfloor (tokens bucket))
            end
  /\ snd (exec now (GetRemainingTokens identifier) w) = w
  /\ forall now', exec now' (GetRemainingTokens identifier) w
                  = exec now (GetRemainingTokens identifier) w.
Proof.
  cbn. unfold getRemainingTokens.
  destruct (buckets (fst w) !! identifier); repeat split; reflexivity.
Qed.

(** ** C8: independence of identifiers *)

(** C8. For distinct identifiers [a] and [b], [isAllowed a] leaves the bucket
    of [b] (tokens and lastRefill, or its absence) as it was; hence the next
    verdict for [b], and the bucket [b] ends up with, are the same as if the
    call for [a] had not happened. *)
Theorem isAllowed_independent
  (now now' : Q) (a b : string) (rl : RateLimiter) :
  a <> b ->
  let rl_a := snd (isAllowed now a rl) in
  buckets rl_a !! b = buckets rl !! b
  /\ fst (isAllowed now' b rl_a) = fst (isAllowed now' b rl)
  /\ buckets (snd (isAllowed now' b rl_a)) !! b
     = buckets (snd (isAllowed now' b rl)) !! b
  /\ getRemainingTokens b rl_a = getRemainingTokens b rl
  /\ getResetTimeSeconds b rl_a = getResetTimeSeconds b rl.
Proof.
  intros Hne rl_a.
  assert (Hl : buckets rl_a !! b = buckets rl !! b)
    by (apply isAllowed_lookup_ne; exact Hne).
  assert (Hc : config rl_a = config rl) by apply isAllowed_config.
  split; [exact Hl|].
  destruct (isAllowed_local now' b rl_a rl Hc Hl) as [Hv Hb].
  split; [exact Hv|]. split; [exact Hb|].
  unfold getRemainingTokens, getResetTimeSeconds. rewrite Hl, Hc. split; reflexivity.
Qed.

Lemma isAllowed_independent_witness :
  let rl := snd (burst 10 1000 "1.2.3.4" rateLimiter) in
  buckets (snd (isAllowed 1000 "5.6.7.8" rl)) !! "1.2.3.4" = buckets rl !! "1.2.3.4"
  /\ fst (isAllowed 1000 "1.2.3.4" (snd (isAllowed 1000 "5.6.7.8" rl))) = false.
Proof.
  intros rl.
  destruct (isAllowed_independent 1000 1000 "5.6.7.8" "1.2.3.4" rl) as (H1 & H2 & _).
  - discriminate.
  - split; [exact H1|]. rewrite H2. vm_compute. reflexivity.
Defined.

(** ** C10: the creation path admits unconditionally *)

(** C10. For an unseen identifier and any configuration, [isAllowed] returns
    [true] and stores [tokens = bucketSize - 1], [lastRefill = now], with no
    lower clamp.  With [bucketSize = 0] the stored count is [-1], and every
    later call for that bucket is denied whatever time has passed: the
    zero-capacity configuration admits exactly the creating request. *)
Theorem isAllowed_creation_unconditional
  (now : Q) (identifier : string) (rl : RateLimiter) :
  buckets rl !! identifier = None ->
  let r := isAllowed now identifier rl in
  fst r = true
  /\ buckets (snd r) !! identifier
     = Some {| tokens := bucketSize (config rl) - 1; lastRefill := now |}
  /\ (bucketSize (config rl) == 0 ->
      (exists bucket, buckets (snd r) !! identifier = Some bucket
                      /\ tokens bucket == -1 /\ tokens bucket < 0)
      /\ forall k now', Forall (fun v => v = false)
                               (fst (burst k now' identifier (snd r)))).
Proof.
  intros Hnone r.
  assert (Hl : buckets (snd r) !! identifier
               = Some {| tokens := bucketSize (config rl) - 1; lastRefill := now |}).
  { subst r. unfold isAllowed. rewrite Hnone. cbn. apply lookup_insert_eq. }
  assert (Hc : config (snd r) = config rl) by apply isAllowed_config.
  assert (Ht : fst r = true).
  { subst r. unfold isAllowed. rewrite Hnone. reflexivity. }
  split; [exact Ht|]. split; [exact Hl|].
  intros Hz. split.
  - eexists. split; [exact Hl|]. cbn. split; lra.
  - intros k now'.
    assert (Hex : exists b, buckets (snd r) !! identifier = Some b) by eauto.
    clear Hl Ht. generalize dependent (snd r). clear r.
    induction k as [|k IH]; intros rl1 Hc Hex.
    + constructor.
    + destruct Hex as [b Hb]. cbn [burst fst].
      assert (Hden : js_ge (refill (config rl1) now' b) 1 = false).
      { apply js_ge_false. unfold refill, Math_min. rewrite Hc.
        pose proof (Q.le_min_l (bucketSize (config rl))
                      (tokens b + Math_floor ((now' - lastRefill b) / interval (config rl))
                                  * tokensPerInterval (config rl))). lra. }
      constructor.
      * unfold isAllowed. rewrite Hb. cbn [tokens]. rewrite Hden. reflexivity.
      * apply IH.
        -- rewrite isAllowed_config. exact Hc.
        -- unfold isAllowed. rewrite Hb. cbn [tokens]. rewrite Hden. cbn.
           rewrite lookup_insert_eq. eauto.
Qed.

Lemma isAllowed_creation_unconditional_witness :
  let rl := constructor {| tokensPerInterval := 1; interval := 2000; bucketSize := 0 |} in
  fst (isAllowed 1000 "1.2.3.4" rl) = true
  /\ buckets (snd (isAllowed 1000 "1.2.3.4" rl)) !! "1.2.3.4"
     = Some {| tokens := 0 - 1; lastRefill := 1000 |}.
Proof.
  intros rl.
  destruct (isAllowed_creation_unconditional 1000 "1.2.3.4" rl eq_refl) as (H1 & H2 & _).
  split; [exact H1 | exact H2].
Defined.

(** ** C6: the cleanup sweep *)

(** The loop of [cleanup] at a fixed reading [now] of the clock. *)
Section SweepLoop.
Variable now : Q.

Lemma cleanup_step_lookup_None m e k :
  m !! k = None -> cleanup_step now m e !! k = None.
Proof.
  intros H. unfold cleanup_step. destruct (js_gt _ _); [|exact H].
  rewrite lookup_delete. case_decide; [reflexivity | exact H].
Qed.

Lemma foldl_cleanup_lookup_None l : forall (m : gmap string TokenBucket) k,
  m !! k = None -> foldl (cleanup_step now) m l !! k = None.
Proof.
  induction l as [|e l IH]; intros m k H; cbn; [exact H|].
  apply IH, cleanup_step_lookup_None, H.
Qed.

(** A key with a stale entry in the list walked is absent afterwards. *)
Lemma foldl_cleanup_stale l : forall (m : gmap string TokenBucket) k b,
  (k, b) ∈ l -> js_gt (now - lastRefill b) staleThreshold = true ->
  foldl (cleanup_step now) m l !! k = None.
Proof.
  induction l as [|e l IH]; intros m k b Hin Hst; [inversion Hin|].
  apply elem_of_cons in Hin as [<-|Hin]; cbn.
  - apply foldl_cleanup_lookup_None. unfold cleanup_step. cbn. rewrite Hst.
    apply lookup_delete_eq.
  - eapply IH; eauto.
Qed.

(** A key all of whose entries in the list walked are fresh keeps its entry. *)
Lemma foldl_cleanup_fresh l : forall (m : gmap string TokenBucket) k,
  (forall b, (k, b) ∈ l -> js_gt (now - lastRefill b) staleThreshold = false) ->
  foldl (cleanup_step now) m l !! k = m !! k.
Proof.
  induction l as [|e l IH]; intros m k Hfr; cbn; [reflexivity|].
  rewrite IH by (intros b Hb; apply Hfr; right; exact Hb).
  unfold cleanup_step. destruct (js_gt _ _) eqn:E; [|reflexivity].
  destruct e as [k' b']. cbn in *. rewrite lookup_delete. case_decide; [|reflexivity].
  subst k'. rewrite (Hfr b') in E by left. discriminate.
Qed.

End SweepLoop.

Lemma cleanup_lookup now rl k :
  buckets (cleanup now rl) !! k
  = match buckets rl !! k with
    | Some b => if js_gt (now - lastRefill b) staleThreshold then None else Some b
    | None => None
    end.
Proof.
  unfold cleanup. cbn. destruct (buckets rl !! k) as [b|] eqn:Hk.
  - destruct (js_gt _ _) eqn:E.
    + eapply foldl_cleanup_stale; [|exact E]. apply elem_of_map_to_list. exact Hk.
    + rewrite foldl_cleanup_fresh; [exact Hk|].
      intros b' Hb'. apply elem_of_map_to_list in Hb'. congruence.
  - apply foldl_cleanup_lookup_None. exact Hk.
Qed.

(** C6. After one sweep at time [now], the entry of an identifier is still in
    the store exactly when [now - lastRefill] does not exceed the threshold
    of 5 minutes (300000 ms), and it is kept unchanged; otherwise it is gone.
    An entry last refilled 5 minutes and 1 second ago is removed, one last
    refilled 4 minutes 59 seconds ago is retained.  The sweep adds no entry
    and touches neither the configuration nor the timer handle. *)
Theorem cleanup_sweep_eviction
  (now : Q) (identifier : string) (rl : RateLimiter) (bucket : TokenBucket) :
  buckets rl !! identifier = Some bucket ->
  let rl' := cleanup now rl in
  (buckets rl' !! identifier = Some bucket
     <-> now - lastRefill bucket <= 5 * 60 * 1000)
  /\ (buckets rl' !! identifier = None
     <-> 5 * 60 * 1000 < now - lastRefill bucket)
  /\ (now - lastRefill bucket == 5 * 60 * 1000 + 1000 ->
      buckets rl' !! identifier = None)
  /\ (now - lastRefill bucket == 4 * 60 * 1000 + 59 * 1000 ->
      buckets rl' !! identifier = Some bucket)
  /\ (forall other, buckets rl !! other = None -> buckets rl' !! other = None)
  /\ config rl' = config rl
  /\ cleanupIntervalId rl' = cleanupIntervalId rl.
Proof.
  intros Hb rl'.
  assert (Hl : buckets rl' !! identifier
               = if js_gt (now - lastRefill bucket) staleThreshold
                 then None else Some bucket).
  { subst rl'. rewrite cleanup_lookup, Hb. reflexivity. }
  assert (Hth : staleThreshold == 5 * 60 * 1000) by reflexivity.
  destruct (js_gt _ _) eqn:E;
    [apply js_gt_true in E | apply js_gt_false in E]; rewrite Hl.
  - repeat split; try congruence; try (intros; lra).
    + intros other Ho. subst rl'. rewrite cleanup_lookup, Ho. reflexivity.
  - repeat split; try congruence; try (intros; lra).
    + intros other Ho. subst rl'. rewrite cleanup_lookup, Ho. reflexivity.
Qed.

Lemma cleanup_sweep_eviction_witness :
  let rl := snd (isAllowed 1000 "5.6.7.8" (snd (isAllowed 3000 "1.2.3.4" rateLimiter))) in
  buckets (cleanup 302000 rl) !! "5.6.7.8" = None
  /\ buckets (cleanup 302000 rl) !! "1.2.3.4"
     = Some {| tokens := 10 - 1; lastRefill := 3000 |}.
Proof.
  intros rl. split.
  - destruct (cleanup_sweep_eviction 302000 "5.6.7.8" rl
                {| tokens := 10 - 1; lastRefill := 1000 |} eq_refl)
      as (_ & _ & H & _).
    apply H. reflexivity.
  - destruct (cleanup_sweep_eviction 302000 "1.2.3.4" rl
                {| tokens := 10 - 1; lastRefill := 3000 |} eq_refl)
      as (_ & _ & _ & H & _).
    apply H. reflexivity.
Defined.

(** ** C7: the sweep lifecycle *)

Lemma startCleanup_running ms w :
  sweepState (fst (startCleanup ms w)) = Running.
Proof.
  unfold startCleanup, sweepState.
  destruct (cleanupIntervalId (fst w)) eqn:E; [rewrite E|]; reflexivity.
Qed.

Lemma stopCleanup_stopped w :
  sweepState (fst (stopCleanup w)) = Stopped.
Proof.
  unfold stopCleanup, sweepState.
  destruct (cleanupIntervalId (fst w)) eqn:E; [|rewrite E]; reflexivity.
Qed.

Lemma exec_sweep_coherent now c w :
  sweep_coherent w -> sweep_coherent (snd (exec now c w)).
Proof.
  unfold sweep_coherent. destruct w as [rl t]. intros H.
  destruct c; cbn [exec snd fst]; try exact H.
  - rewrite isAllowed_cleanupIntervalId. exact H.
  - unfold startCleanup. cbn [fst snd] in *.
    destruct (cleanupIntervalId rl) eqn:E; cbn [fst snd]; [rewrite E; exact H|].
    cbn. rewrite H. eexists. apply insert_empty.
  - unfold stopCleanup. cbn [fst snd] in *.
    destruct (cleanupIntervalId rl) eqn:E; cbn [fst snd]; [|rewrite E; exact H].
    cbn. destruct H as [period ->]. apply delete_singleton_eq.
Qed.

Lemma run_sweep_coherent evs : forall w,
  sweep_coherent w -> sweep_coherent (snd (run evs w)).
Proof.
  induction evs as [|[now c] evs IH]; intros w H; cbn; [exact H|].
  apply IH, exec_sweep_coherent, H.
Qed.

(** C7. Starting a running sweep and stopping a stopped sweep change nothing,
    so both controls are idempotent; after [startCleanup] the sweep is
    Running, after [stopCleanup] it is Stopped.  From a fresh limiter, in
    every reachable state the host has exactly one active timer when the
    sweep is Running and none when it is Stopped; in particular two starts
    leave one timer, and a start followed by two stops leaves none. *)
Theorem sweep_lifecycle_idempotent
  (ms ms' : option Q) (w : RateLimiter * Timers)
  (cfg : RateLimitConfig) (evs : list (Q * Call)) :
  match sweepState (fst w) with
  | Running => startCleanup ms w = w
  | Stopped => stopCleanup w = w
  end
  /\ startCleanup ms' (startCleanup ms w) = startCleanup ms w
  /\ stopCleanup (stopCleanup w) = stopCleanup w
  /\ sweepState (fst (startCleanup ms w)) = Running
  /\ sweepState (fst (stopCleanup w)) = Stopped
  /\ (let w' := snd (run evs (initial cfg)) in
      size (active (snd w'))
      = match sweepState (fst w') with Running => 1%nat | Stopped => 0%nat end)
  /\ size (active (snd (startCleanup ms' (startCleanup ms (initial cfg))))) = 1%nat
  /\ active (snd (stopCleanup (stopCleanup (startCleanup ms (initial cfg))))) = ∅
  /\ cleanupIntervalId (fst (stopCleanup (stopCleanup (startCleanup ms (initial cfg)))))
     = None.
Proof.
  assert (Hstart : forall m v, sweepState (fst v) = Running -> startCleanup m v = v).
  { intros m v. unfold sweepState, startCleanup.
    destruct (cleanupIntervalId (fst v)); [reflexivity | discriminate]. }
  assert (Hstop : forall v, sweepState (fst v) = Stopped -> stopCleanup v = v).
  { intros v. unfold sweepState, stopCleanup.
    destruct (cleanupIntervalId (fst v)); [discriminate | reflexivity]. }
  split; [destruct (sweepState (fst w)) eqn:E; auto|].
  split; [apply Hstart, startCleanup_running|].
  split; [apply Hstop, stopCleanup_stopped|].
  split; [apply startCleanup_running|].
  split; [apply stopCleanup_stopped|].
  split.
  { cbn zeta. pose proof (run_sweep_coherent evs (initial cfg) eq_refl) as H.
    unfold sweep_coherent, sweepState in *.
    destruct (cleanupIntervalId _).
    - destruct H as [period ->]. apply map_size_singleton.
    - rewrite H. apply map_size_empty. }
  split; [rewrite Hstart by apply startCleanup_running; reflexivity|].
  rewrite (Hstop (stopCleanup _)) by apply stopCleanup_stopped.
  split; reflexivity.
Qed.

Lemma sweep_lifecycle_idempotent_witness :
  startCleanup None (startCleanup (Some 60000) (initial defaultConfig))
  = startCleanup (Some 60000) (initial defaultConfig)
  /\ size (active (snd (snd (run [(0, StartCleanup None); (1, IsAllowed "1.2.3.4");
                                   (2, StartCleanup (Some 5)); (3, Sweep)]
                                  (initial defaultConfig))))) = 1%nat.
Proof.
  destruct (sweep_lifecycle_idempotent (Some 60000) None (initial defaultConfig)
              defaultConfig
              [(0, StartCleanup None); (1, IsAllowed "1.2.3.4");
               (2, StartCleanup (Some 5)); (3, Sweep)])
    as (_ & H1 & _ & _ & _ & H2 & _).
  split; [exact H1|]. rewrite H2. reflexivity.
Defined.

(** ** C2: first-request admission and burst exhaustion *)

Lemma burst_config k now identifier : forall rl,
  config (snd (burst k now identifier rl)) = config rl.
Proof.
  induction k as [|k IH]; intros rl; cbn; [reflexivity|].
  rewrite IH. apply isAllowed_config.
Qed.

(** With no time elapsed the refill leaves a bucket within capacity as it is. *)
Lemma refill_same_instant cfg now bucket :
  lastRefill bucket = now -> tokens bucket <= bucketSize cfg ->
  refill cfg now bucket == tokens bucket.
Proof.
  intros Hl Hle. unfold refill, Math_min, Math_floor. rewrite Hl.
  assert (E : (now - now) / interval cfg == 0) by (unfold Qdiv; ring).
  rewrite (Qfloor_comp _ _ E). change (Qfloor 0) with 0%Z.
  assert (E' : tokens bucket + inject_Z 0 * tokensPerInterval cfg == tokens bucket) by ring.
  rewrite E'. apply Q.min_r. exact Hle.
Qed.

(** [k] immediate calls on a bucket holding [j >= k] whole tokens are all
    admitted and leave [j - k] tokens. *)
Lemma burst_existing now identifier k : forall (j : nat) rl bucket,
  (k <= j)%nat ->
  buckets rl !! identifier = Some bucket ->
  lastRefill bucket = now ->
  tokens bucket == inject_Z (Z.of_nat j) ->
  tokens bucket <= bucketSize (config rl) ->
  fst (burst k now identifier rl) = repeat true k
  /\ exists bucket',
       buckets (snd (burst k now identifier rl)) !! identifier = Some bucket'
       /\ lastRefill bucket' = now
       /\ tokens bucket' == inject_Z (Z.of_nat (j - k)).
Proof.
  induction k as [|k IH]; intros j rl b Hkj Hb Hl Ht Hle.
  - cbn. split; [reflexivity|]. exists b. rewrite Nat.sub_0_r. auto.
  - pose proof (refill_same_instant (config rl) now b Hl Hle) as Hr.
    assert (Hge : js_ge (refill (config rl) now b) 1 = true).
    { apply js_ge_true. rewrite Hr, Ht.
      rewrite <- (Zle_Qle 1). lia. }
    assert (Hstep : isAllowed now identifier rl
                    = (true, set_buckets
                               (<[identifier := {| tokens := refill (config rl) now b - 1;
                                                   lastRefill := now |}]> (buckets rl)) rl)).
    { unfold isAllowed. rewrite Hb. cbn [tokens lastRefill]. rewrite Hge. reflexivity. }
    cbn [burst]. rewrite Hstep. cbn [fst snd].
    destruct (IH (j - 1)%nat
                (set_buckets (<[identifier := {| tokens := refill (config rl) now b - 1;
                                                 lastRefill := now |}]> (buckets rl)) rl)
                {| tokens := refill (config rl) now b - 1; lastRefill := now |})
      as (Hres & b' & Hb' & Hl' & Ht').
    + lia.
    + cbn. apply lookup_insert_eq.
    + reflexivity.
    + cbn. rewrite Hr, Ht.
      replace (Z.of_nat (j - 1)) with (Z.of_nat j - 1)%Z by lia.
      unfold Zminus. rewrite inject_Z_plus. reflexivity.
    + cbn. rewrite Hr. lra.
    + split; [cbn; rewrite Hres; reflexivity|].
      exists b'. split; [exact Hb'|]. split; [exact Hl'|].
      replace (j - S k)%nat with (j - 1 - k)%nat by lia. exact Ht'.
Qed.

(** A bucket that holds no token and is asked again at the instant of its
    last refill denies the request. *)
Lemma isAllowed_empty_same_instant now identifier rl bucket :
  buckets rl !! identifier = Some bucket ->
  lastRefill bucket = now ->
  tokens bucket == 0 ->
  0 <= bucketSize (config rl) ->
  fst (isAllowed now identifier rl) = false.
Proof.
  intros Hb Hl Ht Hbs.
  assert (Hr : refill (config rl) now bucket == tokens bucket)
    by (apply refill_same_instant; [exact Hl | lra]).
  unfold isAllowed. rewrite Hb. cbn [tokens].
  assert (Hden : js_ge (refill (config rl) now bucket) 1 = false)
    by (apply js_ge_false; lra).
  rewrite Hden. reflexivity.
Qed.

(** The state after the creating call followed by [k] more immediate calls. *)
Lemma burst_unseen (n k : nat) now identifier rl :
  buckets rl !! identifier = None ->
  bucketSize (config rl) == inject_Z (Z.of_nat n) ->
  (S k <= n)%nat ->
  fst (burst (S k) now identifier rl) = repeat true (S k)
  /\ exists bucket',
       buckets (snd (burst (S k) now identifier rl)) !! identifier = Some bucket'
       /\ lastRefill bucket' = now
       /\ tokens bucket' == inject_Z (Z.of_nat (n - S k)).
Proof.
  intros Hnone Hbs Hk.
  assert (Hstep : isAllowed now identifier rl
                  = (true, set_buckets
                             (<[identifier := {| tokens := bucketSize (config rl) - 1;
                                                 lastRefill := now |}]> (buckets rl)) rl)).
  { unfold isAllowed. rewrite Hnone. reflexivity. }
  cbn [burst]. rewrite Hstep. cbn [fst snd].
  destruct (burst_existing now identifier k (n - 1)%nat
              (set_buckets (<[identifier := {| tokens := bucketSize (config rl) - 1;
                                               lastRefill := now |}]> (buckets rl)) rl)
              {| tokens := bucketSize (config rl) - 1; lastRefill := now |})
    as (Hres & b' & Hb' & Hl' & Ht').
  - lia.
  - cbn. apply lookup_insert_eq.
  - reflexivity.
  - cbn. rewrite Hbs.
    replace (Z.of_nat (n - 1)) with (Z.of_nat n - 1)%Z by lia.
    unfold Zminus. rewrite inject_Z_plus. reflexivity.
  - cbn. lra.
  - split; [cbn; rewrite Hres; reflexivity|].
    exists b'. split; [exact Hb'|]. split; [exact Hl'|].
    replace (n - S k)%nat with (n - 1 - k)%nat by lia. exact Ht'.
Qed.


(** C2 does not hold for capacity 0: the call after the zero admitted ones is
    the creating call, which is admitted. *)
Lemma burst_zero_capacity_counterexample :
  let rl := constructor zeroCapacity in
  buckets rl !! "1.2.3.4" = None
  /\ bucketSize (config rl) == inject_Z (Z.of_nat 0)
  /\ fst (isAllowed 1000 "1.2.3.4" (snd (burst 0 1000 "1.2.3.4" rl))) = true
  /\ ~ burst_exhausts 0 1000 "1.2.3.4" rl.
Proof.
  cbn zeta. split; [reflexivity|]. split; [reflexivity|]. split; [reflexivity|].
  intros (_ & _ & _ & H). cbn in H. discriminate H.
Qed.

(** C2 (amended). For an unseen identifier and a configuration with
    [bucketSize = n], [n >= 1], and a nonzero interval, [n] calls of
    [isAllowed] with the clock standing still are all admitted, the first one
    creating the bucket with [n - 1] tokens, which [getRemainingTokens] then
    reports, and call [n + 1] is denied.  (The interval is assumed nonzero
    because the source divides the elapsed time, here 0, by it: the quotient
    is [NaN] in double arithmetic at interval 0, which the rational model
    does not represent.) *)
Theorem burst_exhaustion
  (n : nat) (now : Q) (identifier : string) (rl : RateLimiter) :
  (1 <= n)%nat ->
  ~ interval (config rl) == 0 ->
  buckets rl !! identifier = None ->
  bucketSize (config rl) == inject_Z (Z.of_nat n) ->
  burst_exhausts n now identifier rl.
Proof.
  intros Hn _ Hnone Hbs. destruct n as [|k]; [lia|].
  destruct (burst_unseen (S k) k now identifier rl Hnone Hbs (le_n _))
    as (Hres & b' & Hb' & Hl' & Ht').
  assert (Hcreate : buckets (snd (isAllowed now identifier rl)) !! identifier
                    = Some {| tokens := bucketSize (config rl) - 1; lastRefill := now |}).
  { unfold isAllowed. rewrite Hnone. cbn. apply lookup_insert_eq. }
  split; [exact Hres|]. split; [|split].
  - eexists. split; [exact Hcreate|]. cbn. rewrite Hbs. reflexivity.
  - unfold getRemainingTokens. rewrite Hcreate. cbn [tokens]. unfold Math_floor.
    assert (E : bucketSize (config rl) - 1 == inject_Z (Z.of_nat (S k) - 1)).
    { rewrite Hbs. unfold Zminus. rewrite inject_Z_plus. reflexivity. }
    rewrite (Qfloor_comp _ _ E), Qfloor_Z.
    unfold Zminus. rewrite inject_Z_plus. reflexivity.
  - eapply isAllowed_empty_same_instant; [exact Hb' | exact Hl' | |].
    + rewrite Ht', Nat.sub_diag. reflexivity.
    + rewrite burst_config, Hbs. rewrite <- (Zle_Qle 0). lia.
Qed.

Lemma burst_exhaustion_witness : burst_exhausts 10 1000 "1.2.3.4" rateLimiter.
Proof.
  apply burst_exhaustion.
  - lia.
  - discriminate.
  - reflexivity.
  - reflexivity.
Defined.


(** ** C5: the reset delay *)



(** ** The store after a call *)

Lemma isAllowed_lookup_eq now identifier rl :
  buckets (snd (isAllowed now identifier rl)) !! identifier
  = Some match buckets rl !! identifier with
         | None => {| tokens := bucketSize (config rl) - 1; lastRefill := now |}
         | Some bucket =>
             {| tokens := if js_ge (refill (config rl) now bucket) 1
                          then refill (config rl) now bucket - 1
                          else refill (config rl) now bucket;
                lastRefill := now |}
         end.
Proof.
  unfold isAllowed. destruct (buckets rl !! identifier) as [b|].
  - cbn [tokens lastRefill]. destruct (js_ge _ _); cbn; apply lookup_insert_eq.
  - cbn. apply lookup_insert_eq.
Qed.

Lemma cleanup_lookup_Some now rl k b :
  buckets (cleanup now rl) !! k = Some b -> buckets rl !! k = Some b.
Proof.
  rewrite cleanup_lookup. destruct (buckets rl !! k); [|discriminate].
  destruct (js_gt _ _); [discriminate | auto].
Qed.

Lemma exec_config now c w :
  config (fst (snd (exec now c w))) = config (fst w).
Proof.
  destruct c; cbn; try reflexivity.
  - apply isAllowed_config.
  - unfold startCleanup. destruct (cleanupIntervalId (fst w)); reflexivity.
  - unfold stopCleanup. destruct (cleanupIntervalId (fst w)); reflexivity.
Qed.

Lemma run_config evs : forall w,
  config (fst (snd (run evs w))) = config (fst w).
Proof.
  induction evs as [|[now c] evs IH]; intros w; cbn; [reflexivity|].
  rewrite IH. apply exec_config.
Qed.

(** The buckets a call leaves behind: only [isAllowed] and the sweep touch
    the store. *)
Lemma exec_buckets now c w :
  buckets (fst (snd (exec now c w)))
  = match c with
    | IsAllowed identifier => buckets (snd (isAllowed now identifier (fst w)))
    | Sweep => buckets (cleanup now (fst w))
    | _ => buckets (fst w)
    end.
Proof.
  destruct c; cbn; try reflexivity.
  - unfold startCleanup. destruct (cleanupIntervalId (fst w)); reflexivity.
  - unfold stopCleanup. destruct (cleanupIntervalId (fst w)); reflexivity.
Qed.

(** ** C3: bounds on the token count *)

Lemma refill_le_bucketSize cfg now bucket :
  refill cfg now bucket <= bucketSize cfg.
Proof. unfold refill, Math_min. apply Q.le_min_l. Qed.

Lemma Qfloor_nonneg x : 0 <= x -> 0 <= inject_Z (Qfloor x).
Proof.
  intros H. rewrite <- (Zle_Qle 0). change 0%Z with (Qfloor 0).
  apply Qfloor_resp_le, H.
Qed.

Lemma refill_nonneg cfg now bucket :
  0 <= bucketSize cfg -> 0 < interval cfg -> 0 <= tokensPerInterval cfg ->
  lastRefill bucket <= now -> 0 <= tokens bucket ->
  0 <= refill cfg now bucket.
Proof.
  intros Hbs Hi Htpi Hl Ht. unfold refill, Math_min, Math_floor.
  apply Q.min_glb; [exact Hbs|].
  assert (H1 : 0 <= (now - lastRefill bucket) / interval cfg).
  { apply Qle_shift_div_l; [exact Hi | lra]. }
  pose proof (Qmult_le_0_compat _ _ (Qfloor_nonneg _ H1) Htpi). lra.
Qed.

Lemma bounded_at_mono t t' rl :
  t <= t' -> bounded_at t rl -> bounded_at t' rl.
Proof.
  intros Hle H id b Hb. destruct (H id b Hb) as (H1 & H2 & H3).
  repeat split; [exact H1 | exact H2 | lra].
Qed.

Lemma isAllowed_bounded_at now identifier rl :
  1 <= bucketSize (config rl) -> 0 < interval (config rl) ->
  0 <= tokensPerInterval (config rl) ->
  bounded_at now rl -> bounded_at now (snd (isAllowed now identifier rl)).
Proof.
  intros Hbs Hi Htpi H id b Hb. rewrite isAllowed_config.
  destruct (decide (identifier = id)) as [->|Hne].
  - rewrite isAllowed_lookup_eq in Hb. injection Hb as <-.
    destruct (buckets rl !! id) as [b0|] eqn:E; cbn [tokens lastRefill].
    + destruct (H id b0 E) as (H1 & H2 & H3).
      pose proof (refill_le_bucketSize (config rl) now b0).
      pose proof (refill_nonneg (config rl) now b0 ltac:(lra) Hi Htpi H3 H1).
      destruct (js_ge _ _) eqn:G; [apply js_ge_true in G|]; repeat split; lra.
    + repeat split; lra.
  - rewrite isAllowed_lookup_ne in Hb by exact Hne. apply (H id b Hb).
Qed.

Lemma exec_bounded_at t now c w :
  1 <= bucketSize (config (fst w)) -> 0 < interval (config (fst w)) ->
  0 <= tokensPerInterval (config (fst w)) ->
  t <= now ->
  bounded_at t (fst w) -> bounded_at now (fst (snd (exec now c w))).
Proof.
  intros Hbs Hi Htpi Hle H. apply (bounded_at_mono _ _ _ Hle) in H.
  intros id b. rewrite exec_config, exec_buckets. destruct c; try apply (H id b).
  - intros Hb. pose proof (isAllowed_bounded_at now identifier (fst w) Hbs Hi Htpi H id b Hb)
      as Hr. rewrite isAllowed_config in Hr. exact Hr.
  - intros Hb. apply (H id b), (cleanup_lookup_Some now), Hb.
Qed.

Lemma run_bounded_at evs : forall t w,
  1 <= bucketSize (config (fst w)) -> 0 < interval (config (fst w)) ->
  0 <= tokensPerInterval (config (fst w)) ->
  clock_from t evs ->
  bounded_at t (fst w) -> bounded_at (clock_after t evs) (fst (snd (run evs w))).
Proof.
  induction evs as [|[now c] evs IH]; intros t w Hbs Hi Htpi Hclk H; cbn; [exact H|].
  destruct Hclk as [Hle Hclk].
  apply IH; rewrite ?exec_config; try assumption.
  apply (exec_bounded_at t); assumption.
Qed.

(** The upper bound needs no assumption on the configuration or the clock. *)
Lemma exec_tokens_le now c w :
  (forall id b, buckets (fst w) !! id = Some b -> tokens b <= bucketSize (config (fst w))) ->
  forall id b, buckets (fst (snd (exec now c w))) !! id = Some b ->
               tokens b <= bucketSize (config (fst w)).
Proof.
  intros H id b. rewrite exec_buckets. destruct c; try apply H.
  - destruct (decide (identifier = id)) as [->|Hne].
    + rewrite isAllowed_lookup_eq. intros Hb. injection Hb as <-.
      destruct (buckets (fst w) !! id) as [b0|]; cbn [tokens]; [|lra].
      pose proof (refill_le_bucketSize (config (fst w)) now b0).
      destruct (js_ge _ _); lra.
    + rewrite isAllowed_lookup_ne by exact Hne. apply H.
  - intros Hb. apply (H id), (cleanup_lookup_Some now), Hb.
Qed.

Lemma run_tokens_le evs : forall w,
  (forall id b, buckets (fst w) !! id = Some b -> tokens b <= bucketSize (config (fst w))) ->
  forall id b, buckets (fst (snd (run evs w))) !! id = Some b ->
               tokens b <= bucketSize (config (fst w)).
Proof.
  induction evs as [|[now c] evs IH]; intros w H; cbn; [exact H|].
  intros id b Hb. rewrite <- (exec_config now c w).
  apply (IH (snd (exec now c w))) with (id := id); [|exact Hb].
  intros id' b' Hb'. rewrite exec_config. apply (exec_tokens_le now c w H id' b' Hb').
Qed.

(** C3 does not hold for every configuration: with capacity 0 the creating
    call stores [-1] tokens. *)
Lemma tokens_negative_counterexample :
  clock_from 0 [(1000, IsAllowed "1.2.3.4")]
  /\ buckets (fst (snd (run [(1000, IsAllowed "1.2.3.4")] (initial zeroCapacity))))
       !! "1.2.3.4" = Some {| tokens := 0 - 1; lastRefill := 1000 |}
  /\ ~ tokens_bounded (fst (snd (run [(1000, IsAllowed "1.2.3.4")] (initial zeroCapacity)))).
Proof.
  split; [split; [discriminate | exact I]|]. split; [reflexivity|].
  intros H.
  destruct (H "1.2.3.4" {| tokens := 0 - 1; lastRefill := 1000 |} eq_refl) as [H0 _].
  apply H0. reflexivity.
Qed.

(** C3 (amended). In every state reachable from a fresh limiter the stored
    tokens never exceed [bucketSize], for every configuration and every
    clock.  If moreover [bucketSize >= 1], [interval > 0],
    [tokensPerInterval >= 0] and the clock never goes back, then
    [0 <= tokens <= bucketSize] holds for every bucket after every call
    ([isAllowed], [getRemainingTokens], [getResetTimeSeconds], the sweep,
    starting and stopping it), and the refilled count that a later
    [isAllowed] computes before it consumes lies in the same range, however
    much time has passed. *)
Theorem tokens_within_bounds
  (cfg : RateLimitConfig) (t0 : Q) (evs : list (Q * Call)) :
  let rl := fst (snd (run evs (initial cfg))) in
  (forall identifier bucket,
      buckets rl !! identifier = Some bucket -> tokens bucket <= bucketSize cfg)
  /\ (1 <= bucketSize cfg -> 0 < interval cfg -> 0 <= tokensPerInterval cfg ->
      clock_from t0 evs ->
      tokens_bounded rl
      /\ forall now identifier bucket,
           clock_after t0 evs <= now ->
           buckets rl !! identifier = Some bucket ->
           0 <= refill cfg now bucket /\ refill cfg now bucket <= bucketSize cfg).
Proof.
  intros rl. split.
  - intros id b Hb.
    apply (run_tokens_le evs (initial cfg)) with (id := id); [|exact Hb].
    fresh_store.
  - intros Hbs Hi Htpi Hclk.
    assert (Hinv : bounded_at (clock_after t0 evs) rl).
    { apply run_bounded_at; try assumption.
      fresh_store. }
    assert (Hcfg : config rl = cfg) by apply (run_config evs (initial cfg)).
    split.
    + intros id b Hb. destruct (Hinv id b Hb) as (H1 & H2 & _). split; assumption.
    + intros now id b Hnow Hb. destruct (Hinv id b Hb) as (H1 & H2 & H3).
      split; [|apply refill_le_bucketSize].
      apply refill_nonneg; try assumption; lra.
Qed.

Lemma tokens_within_bounds_witness :
  tokens_bounded
    (fst (snd (run [(1000, IsAllowed "1.2.3.4"); (1000, IsAllowed "1.2.3.4");
                    (400000, Sweep); (9000000, IsAllowed "1.2.3.4")]
                   (initial defaultConfig)))).
Proof.
  destruct (tokens_within_bounds defaultConfig 0
              [(1000, IsAllowed "1.2.3.4"); (1000, IsAllowed "1.2.3.4");
               (400000, Sweep); (9000000, IsAllowed "1.2.3.4")]) as [_ H].
  apply H.
  - discriminate.
  - reflexivity.
  - discriminate.
  - cbn. repeat split; discriminate.
Defined.

(** ** C9: integral token counts *)

Lemma isInteger_iff x : isInteger x = true <-> exists z, x == inject_Z z.
Proof.
  unfold isInteger, Math_floor. rewrite Qeq_bool_iff. split.
  - intros H. exists (Qfloor x). symmetry. exact H.
  - intros [z Hz]. rewrite (Qfloor_comp _ _ Hz), Qfloor_Z. symmetry. exact Hz.
Qed.

Lemma isInteger_inject_Z z : isInteger (inject_Z z) = true.
Proof. apply isInteger_iff. exists z. reflexivity. Qed.

Lemma isInteger_plus x y :
  isInteger x = true -> isInteger y = true -> isInteger (x + y) = true.
Proof.
  rewrite !isInteger_iff. intros [a Ha] [b Hb]. exists (a + b)%Z.
  rewrite inject_Z_plus, Ha, Hb. reflexivity.
Qed.

Lemma isInteger_minus x y :
  isInteger x = true -> isInteger y = true -> isInteger (x - y) = true.
Proof.
  rewrite !isInteger_iff. intros [a Ha] [b Hb]. exists (a + - b)%Z.
  rewrite inject_Z_plus, inject_Z_opp, Ha, Hb. reflexivity.
Qed.

Lemma isInteger_mult x y :
  isInteger x = true -> isInteger y = true -> isInteger (x * y) = true.
Proof.
  rewrite !isInteger_iff. intros [a Ha] [b Hb]. exists (a * b)%Z.
  rewrite inject_Z_mult, Ha, Hb. reflexivity.
Qed.

Lemma isInteger_min x y :
  isInteger x = true -> isInteger y = true -> isInteger (Math_min x y) = true.
Proof.
  rewrite !isInteger_iff. intros [a Ha] [b Hb]. unfold Math_min.
  destruct (Q.min_spec x y) as [[_ E]|[_ E]]; [exists a | exists b]; rewrite E; assumption.
Qed.

Create HintDb integral.
#[local] Hint Resolve isInteger_inject_Z isInteger_plus isInteger_minus
  isInteger_mult isInteger_min : integral.









(** * Further properties of the limiter *)

(** ** The reset hint and the verdict agree *)

Lemma Qceiling_pos x : 0 < x -> 1 <= inject_Z (Qceiling x).
Proof.
  intros H. pose proof (Qle_ceiling x) as Hc.
  assert (Hlt : inject_Z 0 < inject_Z (Qceiling x)) by (change (inject_Z 0) with 0; lra).
  rewrite <- Zlt_Qlt in Hlt. rewrite <- (Zle_Qle 1). lia.
Qed.

Lemma reset_hint_pos cfg bucket :
  0 < tokensPerInterval cfg -> 0 < interval cfg -> tokens bucket < 1 ->
  1 <= Math_ceil (Math_ceil (msUntilToken_exact cfg bucket) / 1000).
Proof.
  intros Htpi Hi Ht. unfold Math_ceil.
  assert (Hx : 0 < msUntilToken_exact cfg bucket).
  { unfold msUntilToken_exact. apply Qmult_lt_0_compat; [|exact Hi].
    apply Qlt_shift_div_l; [exact Htpi | lra]. }
  pose proof (Qceiling_pos _ Hx) as H1.
  apply Qceiling_pos. apply Qlt_shift_div_l; lra.
Qed.

(** A call at the instant of the bucket's last refill adds nothing. *)
Lemma refill_no_time cfg bucket :
  refill cfg (lastRefill bucket) bucket == Qmin (bucketSize cfg) (tokens bucket).
Proof.
  unfold refill, Math_min, Math_floor.
  assert (E : (lastRefill bucket - lastRefill bucket) / interval cfg == 0)
    by (unfold Qdiv; ring).
  rewrite (Qfloor_comp _ _ E). change (Qfloor 0) with 0%Z.
  assert (E' : tokens bucket + inject_Z 0 * tokensPerInterval cfg == tokens bucket) by ring.
  rewrite E'. reflexivity.
Qed.

(** X1. With positive [tokensPerInterval] and [interval] and a capacity of at
    least 1, [getResetTimeSeconds] is [0] exactly when a request made with no
    time elapsed since the bucket's last refill is admitted, and at least [1]
    otherwise; in particular it is at least [1] right after a denied call, so
    a denial never comes with a zero retry hint. *)
Theorem reset_hint_consistent (now : Q) (identifier : string) (rl : RateLimiter) :
  0 < tokensPerInterval (config rl) -> 0 < interval (config rl) ->
  1 <= bucketSize (config rl) ->
  (forall bucket, buckets rl !! identifier = Some bucket ->
     (getResetTimeSeconds identifier rl == 0
      <-> fst (isAllowed (lastRefill bucket) identifier rl) = true)
     /\ (fst (isAllowed (lastRefill bucket) identifier rl) = false
         -> 1 <= getResetTimeSeconds identifier rl))
  /\ (fst (isAllowed now identifier rl) = false ->
      1 <= getResetTimeSeconds identifier (snd (isAllowed now identifier rl))).
Proof.
  intros Htpi Hi Hbs. split.
  - intros b Hb.
    assert (Hv : fst (isAllowed (lastRefill b) identifier rl)
                 = js_ge (refill (config rl) (lastRefill b) b) 1).
    { unfold isAllowed. rewrite Hb. cbn [tokens]. destruct (js_ge _ _); reflexivity. }
    pose proof (refill_no_time (config rl) b) as Hr.
    unfold getResetTimeSeconds. rewrite Hb, Hv.
    destruct (js_ge (tokens b) 1) eqn:E.
    + apply js_ge_true in E.
      assert (Hadm : js_ge (refill (config rl) (lastRefill b) b) 1 = true).
      { apply js_ge_true. rewrite Hr. apply Q.min_glb; assumption. }
      rewrite Hadm. split; [split; reflexivity | discriminate].
    + apply js_ge_false in E.
      assert (Hden : js_ge (refill (config rl) (lastRefill b) b) 1 = false).
      { apply js_ge_false. rewrite Hr.
        pose proof (Q.le_min_r (bucketSize (config rl)) (tokens b)). lra. }
      rewrite Hden. pose proof (reset_hint_pos (config rl) b Htpi Hi E) as Hpos.
      unfold msUntilToken_exact in Hpos.
      split; [split; [intros H0; lra | discriminate] | intros _; exact Hpos].
  - intros Hden. unfold isAllowed in Hden |- *.
    destruct (buckets rl !! identifier) as [b|] eqn:Hb; [|discriminate].
    cbn [tokens] in *. destruct (js_ge (refill (config rl) now b) 1) eqn:E; [discriminate|].
    apply js_ge_false in E. unfold getResetTimeSeconds. cbn [snd buckets set_buckets config].
    rewrite lookup_insert_eq. cbn [tokens].
    assert (E' : js_ge (refill (config rl) now b) 1 = false) by (apply js_ge_false; exact E).
    rewrite E'.
    apply (reset_hint_pos (config rl)
             {| tokens := refill (config rl) now b; lastRefill := now |} Htpi Hi E).
Qed.

Lemma reset_hint_consistent_witness :
  1 <= getResetTimeSeconds "1.2.3.4" (snd (burst 11 1000 "1.2.3.4" rateLimiter)).
Proof.
  destruct (reset_hint_consistent 1000 "1.2.3.4" (snd (burst 10 1000 "1.2.3.4" rateLimiter)))
    as [_ H].
  - rewrite burst_config. reflexivity.
  - rewrite burst_config. reflexivity.
  - rewrite burst_config. discriminate.
  - apply H. vm_compute. reflexivity.
Defined.



(** ** Requests that are spaced out, and requests that are not *)

(** X3. With at least one token per interval and a capacity of at least 1,
    under a clock that never goes back, a request that arrives at least one
    interval after the previous request of the same identifier is admitted. *)
Theorem spaced_requests_admitted
  (cfg : RateLimitConfig) (t0 : Q) (evs : list (Q * Call))
  (identifier : string) (now : Q) :
  1 <= bucketSize cfg -> 0 < interval cfg -> 1 <= tokensPerInterval cfg ->
  clock_from t0 evs ->
  let rl := fst (snd (run evs (initial cfg))) in
  forall bucket,
    buckets rl !! identifier = Some bucket ->
    interval cfg <= now - lastRefill bucket ->
    fst (isAllowed now identifier rl) = true.
Proof.
  intros Hbs Hi Htpi Hclk rl b Hb Hgap.
  assert (Hcfg : config rl = cfg) by apply (run_config evs (initial cfg)).
  assert (Hinv : bounded_at (clock_after t0 evs) rl).
  { apply run_bounded_at; try assumption; [cbn; lra | fresh_store]. }
  destruct (Hinv identifier b Hb) as (Ht0 & _ & _).
  assert (Hgoal : 1 <= refill cfg now b).
  { unfold refill, Math_min, Math_floor. apply Q.min_glb; [exact Hbs|].
    assert (He : inject_Z 1 <= (now - lastRefill b) / interval cfg).
    { apply Qle_shift_div_l; [exact Hi|]. change (inject_Z 1) with 1. lra. }
    apply Qfloor_resp_le in He. rewrite Qfloor_Z, Zle_Qle in He.
    pose proof (Qmult_le_1_compat _ _ He Htpi). lra. }
  unfold isAllowed. rewrite Hb, Hcfg. cbn [tokens].
  apply js_ge_true in Hgoal. rewrite Hgoal. reflexivity.
Qed.

Lemma spaced_requests_admitted_witness :
  fst (isAllowed 3000 "1.2.3.4"
         (fst (snd (run (repeat (1000, IsAllowed "1.2.3.4") 11) (initial defaultConfig)))))
  = true.
Proof.
  apply (spaced_requests_admitted defaultConfig 0 (repeat (1000, IsAllowed "1.2.3.4") 11)
           "1.2.3.4" 3000 ltac:(discriminate) ltac:(reflexivity) ltac:(discriminate)
           ltac:(cbn; repeat split; discriminate) {| tokens := 0; lastRefill := 1000 |}).
  - vm_compute. reflexivity.
  - vm_compute. discriminate.
Defined.




(** ** What the remaining tokens mean *)



(** ** The sweep cannot be observed through [isAllowed] *)

Lemma Qmin_left_eq x y : x <= y -> Qmin x y = x.
Proof.
  intros H. unfold Qmin, GenericMinMax.gmin.
  destruct (x ?= y) eqn:E; try reflexivity.
  apply Qgt_alt in E. lra.
Qed.

Lemma isAllowed_verdict now identifier rl :
  fst (isAllowed now identifier rl)
  = match buckets rl !! identifier with
    | None => true
    | Some bucket => js_ge (refill (config rl) now bucket) 1
    end.
Proof.
  unfold isAllowed. destruct (buckets rl !! identifier); [|reflexivity].
  cbn [tokens]. destruct (js_ge _ _); reflexivity.
Qed.

(** X6. If the tokens refilled during the staleness threshold fill a whole
    bucket ([bucketSize <= floor(300000 / interval) * tokensPerInterval], as
    in the reference configuration) and no stored count is negative, then a
    sweep changes no later verdict: a call of [isAllowed] after the sweep
    returns what it would have returned without the sweep and leaves the
    identifier with the same bucket. *)
Theorem sweep_transparent
  (now now' : Q) (identifier : string) (rl : RateLimiter) :
  1 <= bucketSize (config rl) -> 0 < interval (config rl) ->
  0 <= tokensPerInterval (config rl) ->
  bucketSize (config rl)
    <= Math_floor (staleThreshold / interval (config rl)) * tokensPerInterval (config rl) ->
  (forall id bucket, buckets rl !! id = Some bucket -> 0 <= tokens bucket) ->
  now <= now' ->
  fst (isAllowed now' identifier (cleanup now rl)) = fst (isAllowed now' identifier rl)
  /\ buckets (snd (isAllowed now' identifier (cleanup now rl))) !! identifier
     = buckets (snd (isAllowed now' identifier rl)) !! identifier.
Proof.
  intros Hbs Hi Htpi Hfull Hpos Hle.
  assert (Hc : config (cleanup now rl) = config rl) by reflexivity.
  pose proof (cleanup_lookup now rl identifier) as Hl.
  destruct (buckets rl !! identifier) as [b|] eqn:Hb;
    [destruct (js_gt (now - lastRefill b) staleThreshold) eqn:Hst|].
  - apply js_gt_true in Hst.
    assert (Hr : refill (config rl) now' b = bucketSize (config rl)).
    { unfold refill, Math_min. apply Qmin_left_eq.
      assert (He : staleThreshold / interval (config rl)
                   <= (now' - lastRefill b) / interval (config rl)).
      { unfold Qdiv. apply Qmult_le_compat_r; [lra|].
        apply Qlt_le_weak, Qinv_lt_0_compat, Hi. }
      apply Qfloor_resp_le in He. rewrite Zle_Qle in He.
      pose proof (Qmult_le_compat_r _ _ _ He Htpi) as Hm.
      pose proof (Hpos identifier b Hb). unfold Math_floor in *. lra. }
    rewrite !isAllowed_verdict, !isAllowed_lookup_eq, Hl, Hb, Hc, Hr.
    apply js_ge_true in Hbs. rewrite Hbs. split; reflexivity.
  - apply (isAllowed_local now' identifier (cleanup now rl) rl Hc). rewrite Hl, Hb. reflexivity.
  - apply (isAllowed_local now' identifier (cleanup now rl) rl Hc). rewrite Hl, Hb. reflexivity.
Qed.

Lemma sweep_transparent_witness :
  let rl := set_buckets {[ "1.2.3.4" := {| tokens := 0; lastRefill := 1000 |} ]}
                        rateLimiter in
  buckets (cleanup 400000 rl) !! "1.2.3.4" = None
  /\ buckets (snd (isAllowed 400001 "1.2.3.4" (cleanup 400000 rl))) !! "1.2.3.4"
     = buckets (snd (isAllowed 400001 "1.2.3.4" rl)) !! "1.2.3.4".
Proof.
  intros rl. split; [vm_compute; reflexivity|].
  apply (sweep_transparent 400000 400001 "1.2.3.4" rl).
  - cbn. discriminate.
  - reflexivity.
  - cbn. discriminate.
  - cbn. discriminate.
  - intros id b Hb. cbn in Hb. apply lookup_singleton_Some in Hb as [_ <-]. discriminate.
  - discriminate.
Defined.

(** ** The admission rate *)

Section Rate.
Variable cfg : RateLimitConfig.
Hypothesis Hbs : 1 <= bucketSize cfg.
Hypothesis Hi : 0 < interval cfg.
Hypothesis Htpi : 0 <= tokensPerInterval cfg.






Lemma clock_after_ge evs : forall t, clock_from t evs -> t <= clock_after t evs.
Proof.
  induction evs as [|[now c] evs IH]; intros t H; cbn; [lra|].
  destruct H as [Hle H]. specialize (IH now H). lra.
Qed.



End Rate.



(** * Properties of the rest of the worker *)

(** ** [split] and [trim] *)

Lemma ascii_eqb_eq a b : ascii_eqb a b = true <-> a = b.
Proof.
  unfold ascii_eqb. rewrite N.eqb_eq. split; [|congruence].
  intros H. rewrite <- (ascii_N_embedding a), <- (ascii_N_embedding b), H. reflexivity.
Qed.

Arguments ascii_eqb : simpl never.

Lemma split_not_nil sep s : split sep s <> [].
Proof.
  destruct s as [|c r]; cbn; [discriminate|].
  destruct (ascii_eqb c sep); [discriminate|].
  destruct (split sep r); discriminate.
Qed.

(** A string without the separator is the only piece. *)
Lemma split_no_sep sep s : has_char sep s = false -> split sep s = [s].
Proof.
  induction s as [|c r IH]; cbn; [reflexivity|].
  intros H. apply orb_false_iff in H as [Hc Hr]. rewrite Hc, (IH Hr). reflexivity.
Qed.

(** The first piece ends at the first separator. *)
Lemma split_first sep a r :
  has_char sep a = false -> split sep (a +:+ String sep r) = a :: split sep r.
Proof.
  induction a as [|c a IH].
  - intros _. change ("" +:+ String sep r) with (String sep r). cbn [split].
    assert (E : ascii_eqb sep sep = true) by (apply ascii_eqb_eq; reflexivity).
    rewrite E. reflexivity.
  - cbn [has_char]. intros H. apply orb_false_iff in H as [Hc Ha].
    change (String c a +:+ String sep r) with (String c (a +:+ String sep r)).
    cbn [split]. rewrite Hc, (IH Ha). reflexivity.
Qed.

Lemma split_hd_no_sep sep s : has_char sep (hd "" (split sep s)) = false.
Proof.
  induction s as [|c r IH]; cbn; [reflexivity|].
  destruct (ascii_eqb c sep) eqn:E; [reflexivity|].
  destruct (split sep r) as [|p ps] eqn:Hs; cbn in *; rewrite E; [reflexivity | exact IH].
Qed.

Lemma has_char_strip c p1 p2 p3 s :
  has_char c s = false -> has_char c (strip p1 p2 p3 s) = false.
Proof.
  assert (H : forall n s, (String.length s <= n)%nat ->
                has_char c s = false -> has_char c (strip p1 p2 p3 s) = false).
  { clear s. induction n as [|n IH]; intros s Hlen Hs.
    - destruct s; [reflexivity | cbn in Hlen; lia].
    - destruct s as [|c1 r1]; [reflexivity|].
      cbn [String.length] in Hlen.
      pose proof Hs as Hs1. cbn [has_char] in Hs1.
      apply orb_false_iff in Hs1 as [H1 Hr1].
      cbn [strip]. destruct (p1 c1); [apply IH; [lia | exact Hr1]|].
      destruct r1 as [|c2 r2]; [exact Hs|].
      cbn [String.length] in Hlen.
      pose proof Hr1 as Hs2. cbn [has_char] in Hs2.
      apply orb_false_iff in Hs2 as [H2 Hr2].
      destruct (p2 c1 c2); [apply IH; [lia | exact Hr2]|].
      destruct r2 as [|c3 r3]; [exact Hs|].
      cbn [String.length] in Hlen.
      pose proof Hr2 as Hs3. cbn [has_char] in Hs3.
      apply orb_false_iff in Hs3 as [H3 Hr3].
      destruct (p3 c1 c2 c3); [apply IH; [lia | exact Hr3] | exact Hs]. }
  apply (H (String.length s)). lia.
Qed.

Lemma has_char_rev_app c s1 : forall s2,
  has_char c (String.rev_app s1 s2) = has_char c s1 || has_char c s2.
Proof.
  induction s1 as [|a s1 IH]; intros s2; cbn; [reflexivity|].
  rewrite IH. cbn. destruct (ascii_eqb a c), (has_char c s1); reflexivity.
Qed.

Lemma has_char_rev c s : has_char c (String.rev s) = has_char c s.
Proof. unfold String.rev. rewrite has_char_rev_app. cbn. apply orb_false_r. Qed.

Lemma has_char_trim c s : has_char c s = false -> has_char c (trim s) = false.
Proof.
  intros H. unfold trim, trimEnd, trimStart.
  rewrite has_char_rev. apply has_char_strip. rewrite has_char_rev.
  apply has_char_strip, H.
Qed.

(** ** The client identifier *)

(** X8. When neither [CF-Connecting-IP] nor [X-Real-IP] is set, the
    identifier is the first hop of a non-empty [X-Forwarded-For]: the part
    before the first comma, trimmed.  It does not depend on the rest of the
    chain and never contains a comma. *)
Theorem getClientIP_first_hop (request : Request) (xff ip rest : string) :
  truthy (headers_get request "CF-Connecting-IP") = false ->
  truthy (headers_get request "X-Real-IP") = false ->
  headers_get request "X-Forwarded-For" = Some xff ->
  xff <> "" ->
  has_char "," ip = false ->
  xff = ip \/ xff = ip +:+ "," +:+ rest ->
  getClientIP request = trim ip
  /\ has_char "," (getClientIP request) = false.
Proof.
  intros Hcf Hxr Hxff Hne Hip Hshape.
  assert (Hhd : hd "" (split "," xff) = ip).
  { destruct Hshape as [->| ->].
    - rewrite split_no_sep by exact Hip. reflexivity.
    - change ("," +:+ rest) with (String "," rest).
      rewrite (split_first "," ip rest Hip). reflexivity. }
  assert (Ht : truthy (Some xff) = true) by (destruct xff; [congruence | reflexivity]).
  assert (E : getClientIP request = trim ip).
  { unfold getClientIP. rewrite Hcf, Hxr, Hxff, Ht, <- Hhd. reflexivity. }
  split; [exact E|]. rewrite E. apply has_char_trim, Hip.
Qed.

Lemma getClientIP_first_hop_witness :
  getClientIP {| headers_get := fun name =>
                   if String.eqb name "X-Forwarded-For"
                   then Some " 1.2.3.4 , 10.0.0.1, 10.0.0.2" else None |}
  = "1.2.3.4".
Proof.
  refine (eq_trans (proj1 (getClientIP_first_hop _
            " 1.2.3.4 , 10.0.0.1, 10.0.0.2" " 1.2.3.4 " " 10.0.0.1, 10.0.0.2"
            _ _ _ _ _ _)) _).
  - reflexivity.
  - reflexivity.
  - reflexivity.
  - discriminate.
  - reflexivity.
  - right. reflexivity.
  - reflexivity.
Defined.

(** X9. The header precedence and its edge: a non-empty [CF-Connecting-IP]
    wins over everything, then a non-empty [X-Real-IP]; without any non-empty
    header the identifier is ["unknown"].  The identifier is the empty string
    only if it was taken from [X-Forwarded-For], which happens for instance
    when that header starts with a comma. *)
Theorem getClientIP_precedence (request : Request) :
  (forall cf, headers_get request "CF-Connecting-IP" = Some cf -> cf <> "" ->
              getClientIP request = cf)
  /\ (forall xr, truthy (headers_get request "CF-Connecting-IP") = false ->
                 headers_get request "X-Real-IP" = Some xr -> xr <> "" ->
                 getClientIP request = xr)
  /\ (truthy (headers_get request "CF-Connecting-IP") = false ->
      truthy (headers_get request "X-Real-IP") = false ->
      truthy (headers_get request "X-Forwarded-For") = false ->
      getClientIP request = "unknown")
  /\ (getClientIP request = "" ->
      truthy (headers_get request "CF-Connecting-IP") = false
      /\ truthy (headers_get request "X-Real-IP") = false
      /\ truthy (headers_get request "X-Forwarded-For") = true)
  /\ (forall rest,
        truthy (headers_get request "CF-Connecting-IP") = false ->
        truthy (headers_get request "X-Real-IP") = false ->
        headers_get request "X-Forwarded-For" = Some ("," +:+ rest) ->
        getClientIP request = "").
Proof.
  unfold getClientIP. repeat split.
  - intros cf H Hne. rewrite H. destruct cf; [congruence | reflexivity].
  - intros xr Hcf H Hne. rewrite Hcf, H. destruct xr; [congruence | reflexivity].
  - intros Hcf Hxr Hxff. rewrite Hcf, Hxr, Hxff. reflexivity.
  - destruct (headers_get request "CF-Connecting-IP") as [[|c s]|]; cbn in *;
      try reflexivity; discriminate.
  - destruct (headers_get request "CF-Connecting-IP") as [[|c s]|]; cbn in *;
      try discriminate;
      destruct (headers_get request "X-Real-IP") as [[|c' s']|]; cbn in *;
      try reflexivity; discriminate.
  - destruct (headers_get request "CF-Connecting-IP") as [[|c s]|]; cbn in *;
      try discriminate;
      destruct (headers_get request "X-Real-IP") as [[|c' s']|]; cbn in *;
      try discriminate;
      destruct (headers_get request "X-Forwarded-For") as [[|c'' s'']|]; cbn in *;
      try reflexivity; discriminate.
  - intros rest Hcf Hxr Hxff. rewrite Hcf, Hxr, Hxff. reflexivity.
Qed.

Lemma getClientIP_precedence_witness :
  getClientIP {| headers_get := fun name =>
                   if String.eqb name "CF-Connecting-IP" then Some "9.9.9.9"
                   else if String.eqb name "X-Forwarded-For" then Some "1.2.3.4"
                   else None |}
  = "9.9.9.9".
Proof.
  destruct (getClientIP_precedence
              {| headers_get := fun name =>
                   if String.eqb name "CF-Connecting-IP" then Some "9.9.9.9"
                   else if String.eqb name "X-Forwarded-For" then Some "1.2.3.4"
                   else None |}) as [H _].
  apply H; [reflexivity | discriminate].
Defined.

(** ** Moon phase *)

Lemma Qle_bool_inject_Z a b : Qle_bool (inject_Z a) (inject_Z b) = (a <=? b)%Z.
Proof. unfold Qle_bool. cbn. rewrite !Z.mul_1_r. reflexivity. Qed.

(** X10. The phases are the seven-day windows centred on the days the source
    documents: within three days of day 8 the phase is First Quarter, of day
    15 Full Moon, of day 22 Last Quarter, and within three days of day 1 or
    of day 29 New Moon; every day from 1 to 30 lies in one of these windows.
    The day is passed through unchanged. *)
Theorem moon_phase_windows (d : Z) :
  let moon := calculateMoonPhase (inject_Z d) in
  ((Z.abs (d - 8) <= 3)%Z -> phase moon = "First Quarter")
  /\ ((Z.abs (d - 15) <= 3)%Z -> phase moon = "Full Moon")
  /\ ((Z.abs (d - 22) <= 3)%Z -> phase moon = "Last Quarter")
  /\ ((Z.abs (d - 1) <= 3 \/ Z.abs (d - 29) <= 3)%Z -> phase moon = "New Moon")
  /\ ((1 <= d <= 30)%Z ->
      (Z.abs (d - 1) <= 3 \/ Z.abs (d - 8) <= 3 \/ Z.abs (d - 15) <= 3
       \/ Z.abs (d - 22) <= 3 \/ Z.abs (d - 29) <= 3)%Z)
  /\ hijriDay moon = inject_Z d.
Proof.
  cbn zeta. unfold calculateMoonPhase, js_le. cbn [phase hijriDay].
  change 4 with (inject_Z 4). change 11 with (inject_Z 11).
  change 18 with (inject_Z 18). change 25 with (inject_Z 25).
  rewrite !Qle_bool_inject_Z.
  destruct (Z.leb_spec d 4), (Z.leb_spec d 11), (Z.leb_spec d 18), (Z.leb_spec d 25);
    repeat split; intros; try reflexivity; lia.
Qed.

Lemma moon_phase_windows_witness :
  phase (calculateMoonPhase 13) = "Full Moon" /\ phase (calculateMoonPhase 28) = "New Moon".
Proof.
  split.
  - apply (moon_phase_windows 13). cbn. lia.
  - apply (moon_phase_windows 28). right. cbn. lia.
Defined.

(** ** Day length *)

Lemma string_length_app s1 s2 :
  String.length (s1 +:+ s2) = (String.length s1 + String.length s2)%nat.
Proof.
  induction s1 as [|c s1 IH]; [reflexivity|].
  change (String c s1 +:+ s2) with (String c (s1 +:+ s2)). cbn [String.length].
  rewrite IH. reflexivity.
Qed.



(** ** The request date *)

Lemma digits_in_range (f : Z -> string) (n : nat) (lo len : Z) :
  forallb (fun z => digits n (f z)) (seqZ lo len) = true ->
  forall z, (lo <= z < lo + len)%Z -> digits n (f z) = true.
Proof.
  intros H z Hz. rewrite forallb_forall in H. apply H.
  apply list_elem_of_In, elem_of_seqZ. lia.
Qed.

Lemma day_two_digits z :
  (1 <= z <= 31)%Z -> digits 2 (padStart0 2 (Number_toString z)) = true.
Proof.
  intros Hz.
  apply (digits_in_range (fun z => padStart0 2 (Number_toString z)) 2 1 31);
    [vm_compute; reflexivity | lia].
Qed.

Lemma month_two_digits z :
  (0 <= z <= 11)%Z -> digits 2 (padStart0 2 (Number_toString (z + 1))) = true.
Proof.
  intros Hz.
  apply (digits_in_range (fun z => padStart0 2 (Number_toString (z + 1))) 2 0 12);
    [vm_compute; reflexivity | lia].
Qed.

Lemma year_four_digits z :
  (1000 <= z <= 9999)%Z -> digits 4 (Number_toString z) = true.
Proof.
  intros Hz.
  apply (digits_in_range Number_toString 4 1000 9000); [vm_compute; reflexivity | lia].
Qed.

(** A path made of [/api/] and a date of the shape DD-MM-YYYY matches, and
    the match captures the date. *)
Lemma apiMatch_shape dd mm yyyy :
  digits 2 dd = true -> digits 2 mm = true -> digits 4 yyyy = true ->
  apiMatch ("/api/" +:+ dd +:+ "-" +:+ mm +:+ "-" +:+ yyyy)
  = Some (dd +:+ "-" +:+ mm +:+ "-" +:+ yyyy).
Proof.
  unfold digits. intros Hd Hm Hy.
  destruct dd as [|d1 [|d2 [|? ?]]]; try discriminate Hd.
  destruct mm as [|m1 [|m2 [|? ?]]]; try discriminate Hm.
  destruct yyyy as [|y1 [|y2 [|y3 [|y4 [|? ?]]]]]; try discriminate Hy.
  cbn [String.length Nat.eqb all_digits andb] in Hd, Hm, Hy.
  repeat match goal with
         | H : _ && _ = true |- _ => apply andb_true_iff in H as [? ?]
         end.
  cbv [String.append apiMatch].
  repeat match goal with
         | H : isDigit _ = true |- _ => rewrite H; clear H
         end.
  reflexivity.
Qed.

(** X12. The default date has the shape the route accepts: for a date with a
    day from 1 to 31, a month index from 0 to 11 and a four-digit year,
    [getTodayDate] is ten characters long, the path [/api/] followed by it
    matches the route, and a request on that path is given that date at
    whatever time it arrives. *)
Theorem today_matches_route (now now' : Date) :
  (1 <= getDate now <= 31)%Z -> (0 <= getMonth now <= 11)%Z ->
  (1000 <= getFullYear now <= 9999)%Z ->
  String.length (getTodayDate now) = 10%nat
  /\ apiMatch ("/api/" +:+ getTodayDate now) = Some (getTodayDate now)
  /\ requestDate ("/api/" +:+ getTodayDate now) now' = getTodayDate now.
Proof.
  intros Hd Hm Hy.
  pose proof (day_two_digits _ Hd) as H1.
  pose proof (month_two_digits _ Hm) as H2.
  pose proof (year_four_digits _ Hy) as H3.
  pose proof (apiMatch_shape _ _ _ H1 H2 H3) as Hmatch.
  unfold requestDate, getTodayDate. cbn zeta. rewrite Hmatch.
  split; [|split; reflexivity].
  unfold digits in H1, H2, H3.
  apply andb_true_iff in H1 as [H1 _]. apply andb_true_iff in H2 as [H2 _].
  apply andb_true_iff in H3 as [H3 _].
  apply Nat.eqb_eq in H1, H2, H3.
  rewrite !string_length_app, H1, H2, H3. reflexivity.
Qed.

Lemma today_matches_route_witness :
  getTodayDate {| getDate := 3; getMonth := 10; getFullYear := 2026 |} = "03-11-2026"
  /\ requestDate "/api/03-11-2026" {| getDate := 1; getMonth := 0; getFullYear := 1999 |}
     = "03-11-2026".
Proof.
  split; [vm_compute; reflexivity|].
  destruct (today_matches_route
              {| getDate := 3; getMonth := 10; getFullYear := 2026 |}
              {| getDate := 1; getMonth := 0; getFullYear := 1999 |})
    as (_ & _ & H); [cbn; lia | cbn; lia | cbn; lia |].
  exact H.
Defined.

(** ** Calculation methods *)

Lemma method_in_enum z :
  (0 <= z <= 23)%Z -> z <> 6%Z ->
  method_in_CALCULATION_METHODS (Some z) = true
  /\ existsb (fun m => Z.eqb (Method.id m) z) getMethods = true.
Proof.
  intros Hz H6.
  assert (Hcases : z ∈ seqZ 0 24) by (apply elem_of_seqZ; lia).
  vm_compute in Hcases.
  repeat (apply elem_of_cons in Hcases as [->|Hcases];
          [first [split; reflexivity | lia]|]).
  apply elem_of_nil in Hcases. destruct Hcases.
Qed.

Lemma method_in_range z :
  method_in_CALCULATION_METHODS (Some z) = true -> (0 <= z <= 23)%Z /\ z <> 6%Z.
Proof.
  unfold method_in_CALCULATION_METHODS. rewrite existsb_exists.
  intros [[k n] [Hin Hk]]. apply Z.eqb_eq in Hk. cbn [fst] in Hk. subst k.
  unfold CALCULATION_METHODS in Hin. cbn [In] in Hin.
  repeat (destruct Hin as [Hin|Hin]; [injection Hin as <- _; lia|]).
  destruct Hin.
Qed.

(** X13. The method ids that [main] accepts are exactly the integers from 0
    to 23 other than 6, and [getMethods] lists exactly the accepted ids, each
    once and with the name [CALCULATION_METHODS] gives it. *)
Theorem methods_listed_are_accepted (z : Z) :
  (method_in_CALCULATION_METHODS (Some z) = true <-> (0 <= z <= 23)%Z /\ z <> 6%Z)
  /\ (method_in_CALCULATION_METHODS (Some z) = true
      <-> exists m, m ∈ getMethods /\ Method.id m = z)
  /\ map (fun m => (Method.id m, Method.name m)) getMethods = CALCULATION_METHODS
  /\ NoDup (map Method.id getMethods)
  /\ method_in_CALCULATION_METHODS None = false.
Proof.
  pose proof (method_in_enum z) as Henum.
  pose proof (method_in_range z) as Hrange.
  split; [|split; [|split; [reflexivity|split; [|reflexivity]]]].
  - split; [exact Hrange | intros [Hz H6]; apply Henum; assumption].
  - split.
    + intros H. destruct (Hrange H) as [Hz H6]. destruct (Henum Hz H6) as [_ He].
      apply existsb_exists in He as (m & Hin & Hid). apply Z.eqb_eq in Hid.
      exists m. split; [apply list_elem_of_In, Hin | exact Hid].
    + intros (m & Hin & <-). unfold getMethods in Hin.
      repeat (apply elem_of_cons in Hin as [->|Hin]; [reflexivity|]).
      apply elem_of_nil in Hin. destruct Hin.
  - apply (bool_decide_unpack _). vm_compute. reflexivity.
Qed.

Lemma methods_listed_are_accepted_witness :
  method_in_CALCULATION_METHODS (Some 7%Z) = true
  /\ (method_in_CALCULATION_METHODS (Some 6%Z) = true -> False).
Proof.
  split.
  - apply (proj1 (methods_listed_are_accepted 7%Z)). lia.
  - intros H. apply (proj1 (methods_listed_are_accepted 6%Z)) in H. lia.
Defined.

(** ** The time of the last refill *)

Lemma exec_lastRefill t now c w :
  t <= now ->
  (forall id b, buckets (fst w) !! id = Some b -> lastRefill b <= t) ->
  forall id b', buckets (fst (snd (exec now c w))) !! id = Some b' ->
    lastRefill b' <= now
    /\ forall b, buckets (fst w) !! id = Some b -> lastRefill b <= lastRefill b'.
Proof.
  intros Hle Hinv id b'. rewrite exec_buckets.
  assert (Hsame : buckets (fst w) !! id = Some b' ->
                  lastRefill b' <= now
                  /\ forall b, buckets (fst w) !! id = Some b -> lastRefill b <= lastRefill b').
  { intros Hb. pose proof (Hinv id b' Hb). split; [lra|].
    intros b Hb0. rewrite Hb in Hb0. injection Hb0 as <-. lra. }
  destruct c; try exact Hsame.
  - destruct (decide (identifier = id)) as [->|Hne].
    + rewrite isAllowed_lookup_eq. intros Hb. injection Hb as <-.
      destruct (buckets (fst w) !! id) as [b0|] eqn:E; cbn [lastRefill].
      * split; [lra|]. intros b Hb. injection Hb as <-. pose proof (Hinv id b0 E). lra.
      * split; [lra|]. intros b Hb. discriminate Hb.
    + rewrite isAllowed_lookup_ne by exact Hne. exact Hsame.
  - intros Hb. apply Hsame, (cleanup_lookup_Some now), Hb.
Qed.

Lemma run_lastRefill evs : forall t w,
  clock_from t evs ->
  (forall id b, buckets (fst w) !! id = Some b -> lastRefill b <= t) ->
  forall id b, buckets (fst (snd (run evs w))) !! id = Some b ->
               lastRefill b <= clock_after t evs.
Proof.
  induction evs as [|[now c] evs IH]; intros t w Hclk Hinv; cbn; [exact Hinv|].
  destruct Hclk as [Hle Hclk]. apply IH; [exact Hclk|].
  intros id b Hb. apply (exec_lastRefill t now c w Hle Hinv id b Hb).
Qed.

(** X14. Under a clock that never goes back, in every state reachable from a
    fresh limiter no bucket was refilled later than the current time, and a
    call never moves the [lastRefill] of a bucket backwards: a bucket that
    survives the call has a [lastRefill] at least as late as before and no
    later than the time of the call. *)
Theorem lastRefill_never_decreases
  (cfg : RateLimitConfig) (t0 : Q) (evs : list (Q * Call)) (now : Q) (c : Call)
  (identifier : string) :
  clock_from t0 evs -> clock_after t0 evs <= now ->
  let w := snd (run evs (initial cfg)) in
  (forall bucket, buckets (fst w) !! identifier = Some bucket ->
                  lastRefill bucket <= clock_after t0 evs)
  /\ (forall bucket bucket',
        buckets (fst w) !! identifier = Some bucket ->
        buckets (fst (snd (exec now c w))) !! identifier = Some bucket' ->
        lastRefill bucket <= lastRefill bucket' /\ lastRefill bucket' <= now).
Proof.
  intros Hclk Hnow w.
  assert (Hinv : forall id b, buckets (fst w) !! id = Some b ->
                              lastRefill b <= clock_after t0 evs).
  { apply (run_lastRefill evs t0 (initial cfg) Hclk). fresh_store. }
  split; [intros b Hb; apply (Hinv identifier b Hb)|].
  intros b b' Hb Hb'.
  destruct (exec_lastRefill _ now c w Hnow Hinv identifier b' Hb') as [H1 H2].
  split; [apply H2, Hb | exact H1].
Qed.

Lemma lastRefill_never_decreases_witness :
  let w := snd (run [(1000, IsAllowed "1.2.3.4")] (initial defaultConfig)) in
  let bucket := {| tokens := 10 - 1; lastRefill := 1000 |} in
  let bucket' := {| tokens := 10 - 1 - 1; lastRefill := 1500 |} in
  buckets (fst w) !! "1.2.3.4" = Some bucket
  /\ buckets (fst (snd (exec 1500 (IsAllowed "1.2.3.4") w))) !! "1.2.3.4" = Some bucket'
  /\ lastRefill bucket <= lastRefill bucket' /\ lastRefill bucket' <= 1500.
Proof.
  intros w bucket bucket'.
  assert (Hb : buckets (fst w) !! "1.2.3.4" = Some bucket) by reflexivity.
  assert (Hb' : buckets (fst (snd (exec 1500 (IsAllowed "1.2.3.4") w))) !! "1.2.3.4"
                = Some bucket') by (vm_compute; reflexivity).
  split; [exact Hb|]. split; [exact Hb'|].
  destruct (lastRefill_never_decreases defaultConfig 0 [(1000, IsAllowed "1.2.3.4")]
              1500 (IsAllowed "1.2.3.4") "1.2.3.4") as [_ H].
  - cbn. split; [discriminate | exact I].
  - discriminate.
  - apply (H bucket bucket' Hb Hb').
Defined.

(** ** Fetching with fallback *)

Section ProviderFacts.
Context {Data Soluna : Type}.
Variable encodeURIComponent : string -> string.
Variable fetch : string -> string + Response Data.
Variable build : Data -> string + Soluna.
Variable params : QueryParams.

(** The first base URL whose attempt returns ends the loop. *)
Lemma getSolunaData_from_first pre : forall baseUrl post result lastError,
  Forall (fails encodeURIComponent fetch build params) pre ->
  attempt encodeURIComponent fetch build params baseUrl = inr result ->
  getSolunaData_from encodeURIComponent fetch build params (pre ++ baseUrl :: post) lastError
  = (inr result, map (requestUrl encodeURIComponent params) (pre ++ [baseUrl])).
Proof.
  induction pre as [|u pre IH]; intros baseUrl post result lastError Hpre Hok.
  - cbn. rewrite Hok. reflexivity.
  - apply Forall_cons in Hpre as [[err Herr] Hpre].
    cbn. rewrite Herr, (IH _ _ _ _ Hpre Hok). reflexivity.
Qed.

(** When every attempt throws, the error thrown is the last one caught. *)
Lemma getSolunaData_from_all_fail urls : forall lastError,
  Forall (fails encodeURIComponent fetch build params) urls ->
  exists err,
    getSolunaData_from encodeURIComponent fetch build params urls lastError
    = (inl err, map (requestUrl encodeURIComponent params) urls)
    /\ match last urls with
       | Some baseUrl => attempt encodeURIComponent fetch build params baseUrl = inl err
       | None => err = default "All AlAdhan API endpoints failed" lastError
       end.
Proof.
  induction urls as [|u urls IH]; intros lastError Hall.
  - eexists. split; reflexivity.
  - apply Forall_cons in Hall as [[err Herr] Hall].
    destruct (IH (Some err) Hall) as (e & He & Hlast).
    exists e. cbn [getSolunaData_from]. rewrite Herr, He. split; [reflexivity|].
    destruct urls as [|u' urls'].
    + cbn in Hlast |- *. congruence.
    + rewrite last_cons_cons. destruct (last (u' :: urls')) eqn:E; [exact Hlast|].
      apply last_None in E. discriminate E.
Qed.

End ProviderFacts.

(** X15. [getSolunaData] tries the three base URLs in order.  It returns the
    result of the first one whose attempt does not throw (a network error, a
    response that is not ok, a body that is not JSON or whose [code] is not
    200 all count as throwing) and fetches no URL after it.  When all three
    attempts throw, it has fetched all three and throws the error of the
    third; the message "All AlAdhan API endpoints failed" is never used. *)
Theorem getSolunaData_fallback
  {Data Soluna : Type} (encodeURIComponent : string -> string)
  (fetch : string -> string + Response Data) (build : Data -> string + Soluna)
  (params : QueryParams) :
  let attempt' := attempt encodeURIComponent fetch build params in
  let failed := fails encodeURIComponent fetch build params in
  let result := getSolunaData encodeURIComponent fetch build params in
  (forall pre baseUrl post r,
      BASE_URLS = pre ++ baseUrl :: post ->
      Forall failed pre -> attempt' baseUrl = inr r ->
      result = (inr r, map (requestUrl encodeURIComponent params) (pre ++ [baseUrl])))
  /\ (Forall failed BASE_URLS ->
      exists err,
        attempt' "https://aladhan.api.alislam.ru/v1/timingsByAddress" = inl err
        /\ result = (inl err, map (requestUrl encodeURIComponent params) BASE_URLS)).
Proof.
  cbn zeta. split.
  - intros pre baseUrl post r Hurls Hpre Hok. unfold getSolunaData. rewrite Hurls.
    apply getSolunaData_from_first; assumption.
  - intros Hall.
    destruct (getSolunaData_from_all_fail encodeURIComponent fetch build params
                BASE_URLS None Hall) as (err & Hres & Hlast).
    exists err. split; [exact Hlast | exact Hres].
Qed.

Lemma getSolunaData_fallback_witness :
  let fetch := fun url : string =>
    if String.prefix "https://api.aladhan.com" url
    then inl "network error"
    else inr {| response_ok := true; response_status := 200; response_statusText := "OK";
                response_json := inr {| code := 200; status := "OK"; data := tt |} |} in
  let params := {| address := "Dhaka"; method := None; date := "03-11-2026" |} in
  getSolunaData (fun s => s) fetch (fun d : unit => inr d) params
  = (inr tt,
     [ "https://api.aladhan.com/v1/timingsByAddress/03-11-2026?address=Dhaka&method=1";
       "https://aladhan.api.islamic.network/v1/timingsByAddress/03-11-2026?address=Dhaka&method=1" ]).
Proof.
  intros fetch params.
  refine (eq_trans (proj1 (getSolunaData_fallback (fun s => s) fetch (fun d : unit => inr d)
                             params)
                      [ "https://api.aladhan.com/v1/timingsByAddress" ]
                      "https://aladhan.api.islamic.network/v1/timingsByAddress"
                      [ "https://aladhan.api.alislam.ru/v1/timingsByAddress" ]
                      tt _ _ _) _).
  - reflexivity.
  - apply Forall_cons. split; [eexists; reflexivity | apply Forall_nil; exact I].
  - reflexivity.
  - vm_compute. reflexivity.
Defined.

(** ** The request handler *)

Lemma showMethods_true (v : option string) :
  String.eqb (default "" v) "true" = true <-> v = Some "true".
Proof.
  rewrite String.eqb_eq. destruct v as [s|]; cbn; split; congruence.
Qed.

Lemma address_empty (v : option string) :
  String.eqb (default "London" v) "" = true <-> v = Some "".
Proof.
  rewrite String.eqb_eq. destruct v as [s|]; cbn; split; congruence.
Qed.

(** X16. What [main] does with a request.  The landing page is served
    exactly when the path is [/], the [address] parameter is present and
    empty, and [methods] is not ["true"]; a request without an [address]
    parameter is never answered with the page but is sent upstream for
    London.  The provider is contacted only for a non-empty address and a
    [method] parameter whose [parseInt] is one of the ids 0 to 23 other than
    6; and then the status is 200 or 503. *)
Theorem main_routing
  {Data Soluna : Type} (encodeURIComponent : string -> string)
  (fetch : string -> string + Response Data) (build : Data -> string + Soluna)
  (LANDING_PAGE_HTML : string) (url : Url) (now : Date) :
  let r := main encodeURIComponent fetch build LANDING_PAGE_HTML url now in
  ((exists html, http_body (fst r) = HtmlBody html)
   <-> searchParams_get url "methods" <> Some "true"
       /\ pathname url = "/"
       /\ searchParams_get url "address" = Some "")
  /\ (snd r <> [] ->
      searchParams_get url "methods" <> Some "true"
      /\ default "London" (searchParams_get url "address") <> ""
      /\ (exists z, parseInt10 (default "1" (searchParams_get url "method")) = Some z
                    /\ (0 <= z <= 23)%Z /\ z <> 6%Z)
      /\ (http_status (fst r) = 200%Z \/ http_status (fst r) = 503%Z))
  /\ (searchParams_get url "address" = None ->
      searchParams_get url "method" = None ->
      searchParams_get url "methods" <> Some "true" ->
      snd r = snd (getSolunaData encodeURIComponent fetch build
                     {| address := "London"; method := Some 1%Z;
                        date := requestDate (pathname url) now |})).
Proof.
  cbn zeta. unfold main.
  destruct (String.eqb (default "" (searchParams_get url "methods")) "true") eqn:Hm.
  { apply showMethods_true in Hm. cbn [fst snd http_body].
    split; [|split].
    - split; [intros [html H]; discriminate H | intros [H _]; congruence].
    - intros H. congruence.
    - intros _ _ H. congruence. }
  assert (Hm' : searchParams_get url "methods" <> Some "true").
  { intros H. apply showMethods_true in H. congruence. }
  destruct (String.eqb (pathname url) "/") eqn:Hp;
    destruct (String.eqb (default "London" (searchParams_get url "address")) "") eqn:Ha;
    cbn [andb fst snd http_body].
  - apply String.eqb_eq in Hp. apply address_empty in Ha.
    split; [|split].
    + split; [intros _; auto | intros _; eexists; reflexivity].
    + intros H. congruence.
    + intros H. congruence.
  - assert (Ha' : searchParams_get url "address" <> Some "").
    { intros H. apply address_empty in H. congruence. }
    apply String.eqb_neq in Ha.
    destruct (method_in_CALCULATION_METHODS
                (parseInt10 (default "1" (searchParams_get url "method")))) eqn:Hv;
      cbn [negb fst snd http_body].
    + split; [|split].
      * split; [|intros (_ & _ & H); congruence].
        intros [html H]. destruct (fst (getSolunaData _ _ _ _)); discriminate H.
      * intros _. split; [exact Hm'|]. split; [exact Ha|]. split.
        -- destruct (parseInt10 _) as [z|] eqn:Hz; [|discriminate Hv].
           exists z. split; [reflexivity | apply method_in_range, Hv].
        -- destruct (fst (getSolunaData _ _ _ _)); [right | left]; reflexivity.
      * intros Hnone Hmeth _. rewrite Hnone, Hmeth.
        destruct (fst (getSolunaData _ _ _ _)); reflexivity.
    + split; [|split].
      * split; [intros [html H]; discriminate H | intros (_ & _ & H); congruence].
      * intros H. congruence.
      * intros Hnone Hmeth _. rewrite Hmeth in Hv. vm_compute in Hv. discriminate Hv.
  - apply String.eqb_neq in Hp. apply address_empty in Ha.
    split; [|split].
    + split; [intros [html H]; discriminate H | intros (_ & H & _); congruence].
    + intros H. congruence.
    + intros H. congruence.
  - apply String.eqb_neq in Hp, Ha.
    destruct (method_in_CALCULATION_METHODS
                (parseInt10 (default "1" (searchParams_get url "method")))) eqn:Hv;
      cbn [negb fst snd http_body].
    + split; [|split].
      * split; [|intros (_ & H & _); congruence].
        intros [html H]. destruct (fst (getSolunaData _ _ _ _)); discriminate H.
      * intros _. split; [exact Hm'|]. split; [exact Ha|]. split.
        -- destruct (parseInt10 _) as [z|] eqn:Hz; [|discriminate Hv].
           exists z. split; [reflexivity | apply method_in_range, Hv].
        -- destruct (fst (getSolunaData _ _ _ _)); [right | left]; reflexivity.
      * intros Hnone Hmeth _. rewrite Hnone, Hmeth.
        destruct (fst (getSolunaData _ _ _ _)); reflexivity.
    + split; [|split].
      * split; [intros [html H]; discriminate H | intros (_ & H & _); congruence].
      * intros H. congruence.
      * intros Hnone Hmeth _. rewrite Hmeth in Hv. vm_compute in Hv. discriminate Hv.
Qed.

Lemma main_routing_witness :
  let url := {| pathname := "/"; searchParams_get := fun _ => None |} in
  let now := {| getDate := 3; getMonth := 10; getFullYear := 2026 |} in
  snd (main (fun s => s) (fun _ => inl "network error") (fun d : unit => inr d)
            "<!DOCTYPE html>" url now)
  = [ "https://api.aladhan.com/v1/timingsByAddress/03-11-2026?address=London&method=1";
      "https://aladhan.api.islamic.network/v1/timingsByAddress/03-11-2026?address=London&method=1";
      "https://aladhan.api.alislam.ru/v1/timingsByAddress/03-11-2026?address=London&method=1" ].
Proof.
  intros url now.
  refine (eq_trans (proj2 (proj2 (main_routing (fun s => s) (fun _ => inl "network error")
                                    (fun d : unit => inr d) "<!DOCTYPE html>" url now))
                      _ _ _) _).
  - reflexivity.
  - reflexivity.
  - discriminate.
  - vm_compute. reflexivity.
Defined.

(** ** [parseInt] on the method parameter *)

Lemma digit_not_ws c :
  isDigit c = true ->
  ws1 c = false /\ (forall d, ws2 c d = false) /\ (forall d e, ws3 c d e = false).
Proof.
  unfold isDigit, ws1, ws2, ws3. cbn zeta. intros H.
  apply andb_true_iff in H as [H1 H2]. apply N.leb_le in H1, H2.
  repeat split; intros;
    repeat match goal with
           | |- context [(?a =? ?b)%N] => destruct (N.eqb_spec a b); [lia|]
           | |- context [(?a <=? ?b)%N] => destruct (N.leb_spec a b); [|]
           end; cbn; try reflexivity; lia.
Qed.

Lemma strip_digit c r :
  isDigit c = true -> trimStart (String c r) = String c r.
Proof.
  intros H. destruct (digit_not_ws c H) as (H1 & H2 & H3).
  unfold trimStart. cbn [strip]. rewrite H1.
  destruct r as [|d [|e r]]; [reflexivity | rewrite H2; reflexivity |].
  rewrite H2, H3. reflexivity.
Qed.

Lemma trimStart_ws1 lead s :
  all_ws1 lead = true -> trimStart (lead +:+ s) = trimStart s.
Proof.
  induction lead as [|c lead IH]; [reflexivity|].
  cbn [all_ws1]. intros H. apply andb_true_iff in H as [Hc Hl].
  change (String c lead +:+ s) with (String c (lead +:+ s)).
  unfold trimStart in *. cbn [strip]. rewrite Hc. apply IH, Hl.
Qed.

Lemma parse_digits_stop acc rest :
  no_leading_digit rest = true -> parse_digits acc rest = acc.
Proof.
  destruct rest as [|c r]; [reflexivity|]. cbn [no_leading_digit parse_digits].
  intros H. apply negb_true_iff in H. rewrite H. reflexivity.
Qed.

(** X17. The [method] parameter is read leniently: for every accepted id,
    its decimal numeral is accepted also after leading white space and
    before any text that does not start with a digit, and is read as that
    id. *)
Theorem parseInt_lenient (z : Z) (lead rest : string) :
  (0 <= z <= 23)%Z -> z <> 6%Z ->
  all_ws1 lead = true -> no_leading_digit rest = true ->
  parseInt10 (lead +:+ Number_toString z +:+ rest) = Some z
  /\ method_in_CALCULATION_METHODS (parseInt10 (lead +:+ Number_toString z +:+ rest)) = true.
Proof.
  intros Hz H6 Hlead Hrest.
  assert (Hp : parseInt10 (lead +:+ Number_toString z +:+ rest) = Some z).
  { unfold parseInt10. rewrite (trimStart_ws1 lead _ Hlead).
    assert (Hcases : z ∈ seqZ 0 24) by (apply elem_of_seqZ; lia).
    vm_compute in Hcases.
    repeat (apply elem_of_cons in Hcases as [->|Hcases];
            [match goal with
             | |- context [Number_toString ?k] =>
                 let s := eval vm_compute in (Number_toString k) in
                 change (Number_toString k) with s
             end;
             cbv beta iota delta [String.append];
             rewrite strip_digit by reflexivity;
             cbn [fst snd parse_digits];
             repeat match goal with
                    | |- context [isDigit ?c] =>
                        let b := eval vm_compute in (isDigit c) in
                        change (isDigit c) with b
                    end;
             cbn [parse_digits]; rewrite (parse_digits_stop _ rest Hrest);
             reflexivity|]).
    apply elem_of_nil in Hcases. destruct Hcases. }
  split; [exact Hp|]. rewrite Hp. apply method_in_enum; assumption.
Qed.

Lemma parseInt_lenient_witness :
  parseInt10 " 7abc" = Some 7%Z
  /\ method_in_CALCULATION_METHODS (parseInt10 " 7abc") = true.
Proof.
  apply (parseInt_lenient 7 " " "abc"); [lia | lia | reflexivity | reflexivity].
Defined.

(** [trim] strips white space outside ASCII too (here U+3000 in front, U+00A0
    and U+2003 behind) and keeps what is inside. *)
Example trim_unicode : trim "　 1.2.3.4 x   " = "1.2.3.4 x".
Proof. vm_compute. reflexivity. Qed.

Example parseInt10_samples :
  parseInt10 "-0" = Some 0%Z /\ parseInt10 "+12px" = Some 12%Z
  /\ parseInt10 "" = None /\ parseInt10 "abc" = None /\ parseInt10 "- 1" = None.
Proof. vm_compute. repeat split; reflexivity. Qed.
